(** * redux-actionflow: the [actionFlow] middleware

    A shallow embedding of [src/actionFlow.js] together with the part of the
    JavaScript host it runs on: dynamically typed values, object
    destructuring, the host pipeline [next], and the promise machinery
    ([then], reaction records, the microtask queue).

    - Objects are finite maps from property names to values.
    - The host pipeline [next] is a function of the action it is given: it
      answers with a value or raises.  Every call is recorded in a log.
    - A promise is an index into a heap of cells holding its state and its
      pending reactions; the microtask queue is a list of jobs.
    - The two arrow functions handed to [promise.then] are closures over
      [rest], [SUCCESS] and [FAILURE]; they are represented by the data
      they capture ([FlowFulfilled], [FlowRejected]) and run by
      [run_handler].
    - Values contain no functions, so the only value with a callable
      [then] is a promise; getters, proxies and prototype chains are not
      represented. *)

From stdpp Require Import gmap strings list fin_maps relations pretty.
From Stdlib Require Import ZArith.

Set Warnings "-register-all".
Open Scope string_scope.
Open Scope list_scope.

(** ** Values *)

Inductive val : Type :=
| VUndefined
| VNull
| VBool (b : bool)
| VNum (n : Z)
| VNaN
| VStr (s : string)
| VArr (elems : list val)
| VObj (props : gmap string val)
| VPromise (id : nat)
| VTypeError.

(** [!v] is [negb (truthy v)]: the falsy values are [undefined], [null],
    [false], [0], [NaN] and the empty string. *)
Definition truthy (v : val) : bool :=
  match v with
  | VUndefined | VNull | VNaN => false
  | VBool b => b
  | VNum n => negb (n =? 0)%Z
  | VStr s => negb (String.eqb s EmptyString)
  | VArr _ | VObj _ | VPromise _ | VTypeError => true
  end.

(** [o.k] for the property names the middleware reads. *)
Definition get_prop (o : val) (k : string) : val :=
  match o with
  | VObj props => default VUndefined (props !! k)
  | _ => VUndefined
  end.

(** Own enumerable properties copied by a rest pattern.  Only objects carry
    any here: for every other value [promise] reads as [undefined] and the
    rest object is never used. *)
Definition own_props (o : val) : gmap string val :=
  match o with
  | VObj props => props
  | _ => ∅
  end.

(** The iteration protocol used by array destructuring: arrays yield their
    elements, strings their characters, nothing else is iterable. *)
Definition iterate (v : val) : option (list val) :=
  match v with
  | VArr elems => Some elems
  | VStr s => Some ((λ c, VStr (String c EmptyString)) <$> String.list_ascii_of_string s)
  | _ => None
  end.

Definition element (l : list val) (i : nat) : val := default VUndefined (l !! i).

(** ** Promises, reactions and jobs *)

Inductive completion (A : Type) : Type :=
| Normal (a : A)
| Throw (e : val).
Arguments Normal {A} a.
Arguments Throw {A} e.

(** The callbacks a promise reaction may hold: the two arrow functions of
    [actionFlow] with their captured variables, and the resolving functions
    of a promise that follows another one. *)
Inductive handler : Type :=
| FlowFulfilled (rest : gmap string val) (SUCCESS : val)
| FlowRejected (rest : gmap string val) (FAILURE : val)
| ResolveFn (target : nat)
| RejectFn (target : nat).

Inductive outcome : Type :=
| Fulfilled (v : val)
| Rejected (e : val).

Inductive pstate : Type :=
| Pending
| Settled (o : outcome).

Record reaction : Type := Reaction {
  on_fulfilled : handler;
  on_rejected : handler;
  derived : nat
}.

Record cell : Type := Cell {
  c_state : pstate;
  c_reactions : list reaction
}.

Inductive job : Type :=
| ReactionJob (h : handler) (arg : val) (d : nat)
| ThenableJob (d : nat) (q : nat).

(** The observable world: the actions handed to [next] so far (oldest
    first), the promises (a promise value is an index into [heap]), and the
    microtask queue (head runs first). *)
Record world : Type := World {
  dispatched : list val;
  heap : list cell;
  queue : list job
}.

Definition M (A : Type) : Type := world → completion A * world.

Definition ret {A} (a : A) : M A := λ w, (Normal a, w).
Definition throw {A} (e : val) : M A := λ w, (Throw e, w).
Definition bind {A B} (m : M A) (k : A → M B) : M B :=
  λ w, match m w with
       | (Normal a, w') => k a w'
       | (Throw e, w') => (Throw e, w')
       end.

Notation "'let*' x := m 'in' k" := (bind m (λ x, k))
  (at level 10, x pattern, m at level 100, k at level 200).

Definition state_of (p : nat) (w : world) : pstate :=
  match heap w !! p with
  | Some c => c_state c
  | None => Pending
  end.

(** The job a reaction turns into when its promise settles. *)
Definition reaction_job (o : outcome) (r : reaction) : job :=
  match o with
  | Fulfilled v => ReactionJob (on_fulfilled r) v (derived r)
  | Rejected e => ReactionJob (on_rejected r) e (derived r)
  end.

(** Settling a pending promise records the outcome and schedules one job
    per registered reaction; a settled promise never changes again. *)
Definition settle_promise (p : nat) (o : outcome) (w : world) : world :=
  match heap w !! p with
  | Some (Cell Pending rs) =>
      World (dispatched w) (<[p := Cell (Settled o) []]> (heap w))
            (queue w ++ (reaction_job o <$> rs))
  | _ => w
  end.

Definition fulfill_promise (p : nat) (v : val) : world → world :=
  settle_promise p (Fulfilled v).
Definition reject_promise (p : nat) (e : val) : world → world :=
  settle_promise p (Rejected e).

(** Resolving promise [d] with [r]: a promise value is followed (one
    microtask later), anything else fulfils [d]. *)
Definition resolve_promise (d : nat) (r : val) (w : world) : world :=
  match r with
  | VPromise q =>
      if decide (q = d) then reject_promise d VTypeError w
      else World (dispatched w) (heap w) (queue w ++ [ThenableJob d q])
  | _ => fulfill_promise d r w
  end.

(** [promise.then(f, g)]: allocates the derived promise and either
    registers the reaction or, when already settled, schedules its job.
    On anything but a promise (an index without a cell included) [then] is
    not a function and the call raises. *)
Definition promise_then (promise : val) (f g : handler) : M val := λ w,
  match promise with
  | VPromise p =>
      match heap w !! p with
      | Some (Cell st rs) =>
          let d := List.length (heap w) in
          let h := heap w ++ [Cell Pending []] in
          match st with
          | Pending =>
              (Normal (VPromise d),
               World (dispatched w)
                     (<[p := Cell Pending (rs ++ [Reaction f g d])]> h)
                     (queue w))
          | Settled o =>
              (Normal (VPromise d),
               World (dispatched w) h
                     (queue w ++ [reaction_job o (Reaction f g d)]))
          end
      | None => (Throw VTypeError, w)
      end
  | _ => (Throw VTypeError, w)
  end.

(** ** The middleware *)

Section Middleware.

(** The host pipeline: what [next] answers for an action, a value or an
    exception. *)
Variable next : val → completion val.

Definition call_next (action : val) : M val := λ w,
  (next action, World (dispatched w ++ [action]) (heap w) (queue w)).

(** The object bound by [...rest]: every own property but [promise] and
    [types]. *)
Definition rest_of (action : val) : gmap string val :=
  delete "types" (delete "promise" (own_props action)).

(** [const { promise, types, ...rest } = action] *)
Definition destructure_action (action : val)
  : M (val * val * gmap string val) :=
  match action with
  | VUndefined | VNull => throw VTypeError
  | _ => ret (get_prop action "promise", get_prop action "types",
              rest_of action)
  end.

(** [const [REQUEST, SUCCESS, FAILURE] = types] *)
Definition destructure_types (types : val) : M (val * val * val) :=
  match iterate types with
  | Some l => ret (element l 0, element l 1, element l 2)
  | None => throw VTypeError
  end.

(** [{ ...rest, type: REQUEST }] *)
Definition request_action (rest : gmap string val) (REQUEST : val) : val :=
  VObj (<["type" := REQUEST]> rest).

(** [{ ...rest, value, type: SUCCESS }] *)
Definition success_action (rest : gmap string val) (SUCCESS value : val) : val :=
  VObj (<["type" := SUCCESS]> (<["value" := value]> rest)).

(** [{ ...rest, error, type: FAILURE }] *)
Definition failure_action (rest : gmap string val) (FAILURE error : val) : val :=
  VObj (<["type" := FAILURE]> (<["error" := error]> rest)).

(** [(value) => next({ ...rest, value, type: SUCCESS })] *)
Definition onFulfilled (rest : gmap string val) (SUCCESS value : val) : M val :=
  call_next (success_action rest SUCCESS value).

(** [(error) => { next({ ...rest, error, type: FAILURE }); throw error }] *)
Definition onRejected (rest : gmap string val) (FAILURE error : val) : M val :=
  let* _ := call_next (failure_action rest FAILURE error) in
  throw error.

Definition actionFlow (action : val) : M val :=
  let* (promise, types, rest) := destructure_action action in
  if negb (truthy promise) then
    call_next action
  else
    let* (REQUEST, SUCCESS, FAILURE) := destructure_types types in
    let* _ := call_next (request_action rest REQUEST) in
    promise_then promise (FlowFulfilled rest SUCCESS) (FlowRejected rest FAILURE).

(** ** The event loop *)

Definition run_handler (h : handler) (arg : val) : M val :=
  match h with
  | FlowFulfilled rest SUCCESS => onFulfilled rest SUCCESS arg
  | FlowRejected rest FAILURE => onRejected rest FAILURE arg
  | ResolveFn d => λ w, (Normal VUndefined, resolve_promise d arg w)
  | RejectFn d => λ w, (Normal VUndefined, reject_promise d arg w)
  end.

(** A reaction job runs its handler and settles the derived promise with
    the outcome; a thenable job subscribes the follower to its target. *)
Definition run_job (j : job) (w : world) : world :=
  match j with
  | ReactionJob h arg d =>
      match run_handler h arg w with
      | (Normal r, w') => resolve_promise d r w'
      | (Throw e, w') => reject_promise d e w'
      end
  | ThenableJob d q =>
      match promise_then (VPromise q) (ResolveFn d) (RejectFn d) w with
      | (Normal _, w') => w'
      | (Throw e, w') => reject_promise d e w'
      end
  end.

Definition run_next_job (w : world) : option world :=
  match queue w with
  | [] => None
  | j :: q => Some (run_job j (World (dispatched w) (heap w) q))
  end.

(** The event loop draining at most [fuel] microtasks. *)
Fixpoint run_jobs (fuel : nat) (w : world) : world :=
  match fuel with
  | 0 => w
  | S fuel' =>
      match run_next_job w with
      | Some w' => run_jobs fuel' w'
      | None => w
      end
  end.

(** What can happen after the middleware returned: some promise settles
    (the application's asynchronous work finishes) or the next microtask
    runs. *)
Inductive step : world → world → Prop :=
| step_settle p o w :
    step w (settle_promise p o w)
| step_job w w' :
    run_next_job w = Some w' → step w w'.

Definition steps : world → world → Prop := rtc step.

End Middleware.

(** ** Where the continuations of a flow action live

    A handler is a flow handler when it is one of the two arrow functions
    of [actionFlow]; a world is quiet when no such handler is registered on
    a promise or scheduled in the queue. *)

Definition is_flow (h : handler) : bool :=
  match h with
  | FlowFulfilled _ _ | FlowRejected _ _ => true
  | ResolveFn _ | RejectFn _ => false
  end.

Definition plain_reaction (r : reaction) : Prop :=
  is_flow (on_fulfilled r) = false ∧ is_flow (on_rejected r) = false.

Definition plain_cell (c : cell) : Prop := Forall plain_reaction (c_reactions c).

Definition plain_job (j : job) : Prop :=
  match j with
  | ReactionJob h _ _ => is_flow h = false
  | ThenableJob _ _ => True
  end.

Definition quiet (w : world) : Prop :=
  Forall plain_cell (heap w) ∧ Forall plain_job (queue w).

#[global] Instance plain_reaction_dec r : Decision (plain_reaction r).
Proof. unfold plain_reaction. apply _. Defined.

#[global] Instance plain_cell_dec c : Decision (plain_cell c).
Proof. unfold plain_cell. apply _. Defined.

#[global] Instance plain_job_dec j : Decision (plain_job j).
Proof. destruct j; simpl; apply _. Defined.

#[global] Instance quiet_dec w : Decision (quiet w).
Proof. unfold quiet. apply _. Defined.

(** The action the continuations dispatch for an outcome. *)
Definition outcome_action (rest : gmap string val) (SUCCESS FAILURE : val)
    (o : outcome) : val :=
  match o with
  | Fulfilled v => success_action rest SUCCESS v
  | Rejected e => failure_action rest FAILURE e
  end.

Definition flow_reaction (rest : gmap string val) (SUCCESS FAILURE : val)
    (d : nat) : reaction :=
  Reaction (FlowFulfilled rest SUCCESS) (FlowRejected rest FAILURE) d.

(** The life of one flow action: its reaction waits on the pending promise;
    then its job waits in the queue behind [n] other jobs; then its action
    is in the log. *)
Inductive phase : Type :=
| Waiting
| Scheduled (o : outcome) (n : nat)
| Done (o : outcome).

Section FlowPhase.

(** The log before the dispatch, the promise, and what the continuations
    captured. *)
Variables (base : list val) (p : nat) (rest : gmap string val).
Variables (REQUEST SUCCESS FAILURE : val).

Inductive flow_at : phase → world → Prop :=
| flow_waiting w rs1 rs2 d :
    heap w !! p = Some (Cell Pending
      (rs1 ++ flow_reaction rest SUCCESS FAILURE d :: rs2)) →
    Forall plain_reaction rs1 → Forall plain_reaction rs2 →
    (∀ i c, i ≠ p → heap w !! i = Some c → plain_cell c) →
    Forall plain_job (queue w) →
    dispatched w = base ++ [request_action rest REQUEST] →
    flow_at Waiting w
| flow_scheduled w o q1 q2 d :
    state_of p w = Settled o →
    Forall plain_cell (heap w) →
    queue w = q1 ++ reaction_job o (flow_reaction rest SUCCESS FAILURE d) :: q2 →
    Forall plain_job q1 → Forall plain_job q2 →
    dispatched w = base ++ [request_action rest REQUEST] →
    flow_at (Scheduled o (List.length q1)) w
| flow_done w o :
    state_of p w = Settled o →
    quiet w →
    dispatched w = base ++ [request_action rest REQUEST;
                            outcome_action rest SUCCESS FAILURE o] →
    flow_at (Done o) w.

Definition flow_inv (w : world) : Prop := ∃ ph, flow_at ph w.

End FlowPhase.

(** The elementary changes of the promise machinery that run no flow
    handler: a promise settles, a plain job is scheduled, a promise is
    allocated, a plain reaction is registered on a pending promise.  Every
    plain job is a sequence of them. *)
Inductive plain_move : world → world → Prop :=
| move_settle p o w :
    plain_move w (settle_promise p o w)
| move_enqueue j w :
    plain_job j →
    plain_move w (World (dispatched w) (heap w) (queue w ++ [j]))
| move_alloc w :
    plain_move w (World (dispatched w) (heap w ++ [Cell Pending []]) (queue w))
| move_register q rs r w :
    heap w !! q = Some (Cell Pending rs) → plain_reaction r →
    plain_move w (World (dispatched w)
                        (<[q := Cell Pending (rs ++ [r])]> (heap w))
                        (queue w)).

(** ** Worked inputs: the examples of the specification *)

(** The store's own dispatch answers with the action it was given. *)
Definition store_next : val → completion val := λ action, Normal action.

(** A pipeline that fails on every action. *)
Definition failing_next : val → completion val := λ _, Throw (VStr "down").

Definition fetch_types : val :=
  VArr [VStr "FETCH_START"; VStr "FETCH_OK"; VStr "FETCH_ERR"].

(** [{ types: [...], promise }] where the promise is cell [0]. *)
Definition fetch_action : val :=
  VObj (<["types" := fetch_types]> {["promise" := VPromise 0]}).

(** A flow action that carries a field named [value] of its own. *)
Definition labelled_action : val :=
  VObj (<["value" := VStr "mine"]>
          (<["types" := fetch_types]> {["promise" := VPromise 0]})).

(** [{ types: ['ONLY_START'], promise }]: two kinds are missing. *)
Definition short_action : val :=
  VObj (<["types" := VArr [VStr "ONLY_START"]]> {["promise" := VPromise 0]}).

(** [{ promise }] without [types]. *)
Definition untyped_action : val := VObj {["promise" := VPromise 0]}.

(** A world holding one promise in the given state and nothing else:
    [Promise.resolve(42)] is [one_promise (Settled (Fulfilled (VNum 42)))]. *)
Definition one_promise (st : pstate) : world := World [] [Cell st []] [].

(** A pipeline that accepts request actions of kind [FETCH_START] and
    raises on everything else. *)
Definition start_only_next : val → completion val := λ action,
  match get_prop action "type" with
  | VStr "FETCH_START" => Normal action
  | _ => Throw (VStr "down")
  end.

(** A pipeline that answers the [FETCH_OK] action with promise [1] and
    every other action with the action itself. *)
Definition chaining_next : val → completion val := λ action,
  match get_prop action "type" with
  | VStr "FETCH_OK" => Normal (VPromise 1)
  | _ => Normal action
  end.

(** A second flow action, on promise [1]. *)
Definition save_action : val :=
  VObj (<["types" := VArr [VStr "SAVE_START"; VStr "SAVE_OK"; VStr "SAVE_ERR"]]>
          {["promise" := VPromise 1]}).

(** A world holding two promises and nothing else. *)
Definition two_promises (st0 st1 : pstate) : world :=
  World [] [Cell st0 []; Cell st1 []] [].

(** ** The example application of the README

    The reducers and action creators of [README.md], the callers the
    middleware is written for.  The action kinds ([DATA_FETCH_START] and
    the like) are not defined there: they are string constants taken as
    parameters. *)

(** The own properties [Object.assign({}, src)] leaves on its target:
    those of an object, the indexed characters of a string, the indexed
    elements of an array; [undefined], [null] and every other value
    contribute nothing.  [Object.assign] assigns (it does not define): a
    source's own [__proto__] key reaches the setter inherited from
    [Object.prototype] and leaves no own property on the target. *)
Definition assign_props (src : val) : gmap string val :=
  match src with
  | VObj props => delete "__proto__" props
  | VStr s =>
      list_to_map (imap (λ i c, (pretty i, VStr (String c EmptyString)))
                        (String.list_ascii_of_string s))
  | VArr elems => list_to_map (imap (λ i x, (pretty i, x)) elems)
  | _ => ∅
  end.

(** [v === KIND] for a string constant [KIND]. *)
Definition is_kind (v : val) (KIND : string) : bool :=
  match v with
  | VStr s => String.eqb s KIND
  | _ => false
  end.

(** What a store does with the actions that reach it: each one goes
    through the reducer, in order, from the state the previous one left. *)
Fixpoint reduce_actions (reducer : val → val → completion val) (state : val)
    (actions : list val) : completion val :=
  match actions with
  | [] => Normal state
  | action :: actions' =>
      match reducer state action with
      | Normal state' => reduce_actions reducer state' actions'
      | Throw e => Throw e
      end
  end.

Section Application.

Variables (DATA_FETCH_START DATA_FETCH_SUCCESS DATA_FETCH_FAIL : string).
Variables (SHARED_MESSAGE_UPDATE SHARED_MESSAGE_CLOSE : string).
Variables (SHARED_MESSAGE_CLOSE_START SHARED_MESSAGE_CLOSE_FAIL : string).

(** [{ data: '', fetchDataProgress: { loading: false, errors: null } }] *)
Definition data_initialState : val :=
  VObj (<["fetchDataProgress" :=
            VObj (<["errors" := VNull]> {["loading" := VBool false]})]>
          {["data" := VStr EmptyString]}).

(** [{ loading, error }] *)
Definition progress (loading : bool) (error : val) : val :=
  VObj (<["error" := error]> {["loading" := VBool loading]}).

Definition dataReducer (state action : val) : completion val :=
  let state := match state with VUndefined => data_initialState | _ => state end in
  match action with
  | VUndefined | VNull => Throw VTypeError
  | _ =>
      let type := get_prop action "type" in
      if is_kind type DATA_FETCH_START then
        Normal (VObj (<["fetchDataProgress" := progress true VNull]>
                        (assign_props state)))
      else if is_kind type DATA_FETCH_FAIL then
        Normal (VObj (<["fetchDataProgress" :=
                          progress false (get_prop action "error")]>
                        (assign_props state)))
      else if is_kind type DATA_FETCH_SUCCESS then
        Normal (VObj (<["data" := get_prop action "value"]>
                        (<["fetchDataProgress" := progress false VNull]>
                           (assign_props state))))
      else Normal state
  end.

(** [{ isVisible: false }] *)
Definition message_initialState : val := VObj {["isVisible" := VBool false]}.

Definition sharedMessageReducer (state action : val) : completion val :=
  let state :=
    match state with VUndefined => message_initialState | _ => state end in
  match action with
  | VUndefined | VNull => Throw VTypeError
  | _ =>
      let type := get_prop action "type" in
      if is_kind type SHARED_MESSAGE_UPDATE then
        Normal (VObj (assign_props (get_prop action "value")))
      else if is_kind type SHARED_MESSAGE_CLOSE then
        Normal (VObj (<["isVisible" := VBool false]> (assign_props state)))
      else Normal state
  end.

(** [sharedMessageActions.update(value)] *)
Definition update (value : val) : val :=
  VObj (<["value" := value]> {["type" := VStr SHARED_MESSAGE_UPDATE]}).

(** [sharedMessageActions.close()] *)
Definition close : val := VObj {["type" := VStr SHARED_MESSAGE_CLOSE]}.

(** What [sharedMessageActions.delayedClose(delay)] returns, [promise]
    being the timer's promise. *)
Definition delayedClose (promise : val) : val :=
  VObj (<["promise" := promise]>
          {["types" := VArr [VStr SHARED_MESSAGE_CLOSE_START;
                             VStr SHARED_MESSAGE_CLOSE;
                             VStr SHARED_MESSAGE_CLOSE_FAIL]]}).

(** What [dataActions.fetchData()] returns, [promise] being the
    provider's promise. *)
Definition fetchData (promise : val) : val :=
  VObj (<["promise" := promise]>
          {["types" := VArr [VStr DATA_FETCH_START;
                             VStr DATA_FETCH_SUCCESS;
                             VStr DATA_FETCH_FAIL]]}).

End Application.

(** * Properties *)

Section Properties.

Variable next : val → completion val.

(** ** Basic facts about the host operations *)

Lemma dispatched_settle p o w :
  dispatched (settle_promise p o w) = dispatched w.
Proof.
  unfold settle_promise.
  destruct (heap w !! p) as [[[] rs]|]; reflexivity.
Qed.

Lemma dispatched_resolve d r w :
  dispatched (resolve_promise d r w) = dispatched w.
Proof.
  unfold resolve_promise, fulfill_promise, reject_promise.
  destruct r; try apply dispatched_settle.
  case_decide; [apply dispatched_settle | reflexivity].
Qed.

Lemma promise_then_dispatched promise f g w :
  dispatched (promise_then promise f g w).2 = dispatched w.
Proof.
  unfold promise_then.
  destruct promise; try reflexivity.
  destruct (heap w !! id) as [[[] rs]|]; reflexivity.
Qed.

Lemma state_of_settle_pending p o rs w :
  heap w !! p = Some (Cell Pending rs) →
  state_of p (settle_promise p o w) = Settled o.
Proof.
  intros Hc. unfold settle_promise, state_of. rewrite Hc. simpl.
  rewrite list_lookup_insert_eq by (eapply lookup_lt_Some; eauto).
  reflexivity.
Qed.

Lemma rest_of_lookup fields k :
  k ≠ "promise" → k ≠ "types" → rest_of (VObj fields) !! k = fields !! k.
Proof.
  intros Hp Ht. unfold rest_of. simpl.
  rewrite lookup_delete_ne by congruence.
  by rewrite lookup_delete_ne by congruence.
Qed.

Lemma rest_of_promise action : rest_of action !! "promise" = None.
Proof.
  unfold rest_of. rewrite lookup_delete_ne by discriminate.
  apply lookup_delete_eq.
Qed.

Lemma rest_of_types action : rest_of action !! "types" = None.
Proof. unfold rest_of. apply lookup_delete_eq. Qed.

Lemma types_array fields l :
  fields !! "types" = Some (VArr l) →
  iterate (get_prop (VObj fields) "types") = Some l.
Proof. intros Ht. simpl. by rewrite Ht. Qed.

Lemma success_action_fields fields SUCCESS value :
  let a := success_action (rest_of (VObj fields)) SUCCESS value in
  own_props a !! "type" = Some SUCCESS
  ∧ own_props a !! "value" = Some value
  ∧ (∀ k, k ≠ "promise" → k ≠ "types" → k ≠ "type" → k ≠ "value" →
       own_props a !! k = fields !! k).
Proof.
  simpl. repeat split.
  - apply lookup_insert_eq.
  - rewrite lookup_insert_ne by discriminate. apply lookup_insert_eq.
  - intros k ? ? ? ?. rewrite !lookup_insert_ne by congruence.
    by apply rest_of_lookup.
Qed.

Lemma failure_action_fields fields FAILURE error :
  let a := failure_action (rest_of (VObj fields)) FAILURE error in
  own_props a !! "type" = Some FAILURE
  ∧ own_props a !! "error" = Some error
  ∧ (∀ k, k ≠ "promise" → k ≠ "types" → k ≠ "type" → k ≠ "error" →
       own_props a !! k = fields !! k).
Proof.
  simpl. repeat split.
  - apply lookup_insert_eq.
  - rewrite lookup_insert_ne by discriminate. apply lookup_insert_eq.
  - intros k ? ? ? ?. rewrite !lookup_insert_ne by congruence.
    by apply rest_of_lookup.
Qed.

(** ** The two branches of the middleware *)

(** The flow branch, up to the call of [then]. *)
Lemma actionFlow_flow fields promise w :
  fields !! "promise" = Some promise → truthy promise = true →
  actionFlow next (VObj fields) w =
    (let* (REQUEST, SUCCESS, FAILURE) :=
       destructure_types (get_prop (VObj fields) "types") in
     let* _ := call_next next (request_action (rest_of (VObj fields)) REQUEST) in
     promise_then promise (FlowFulfilled (rest_of (VObj fields)) SUCCESS)
                  (FlowRejected (rest_of (VObj fields)) FAILURE)) w.
Proof.
  intros Hp Ht. unfold actionFlow, destructure_action, bind at 1, ret. simpl.
  rewrite Hp. simpl. rewrite Ht. reflexivity.
Qed.

(** The pass-through branch. *)
Lemma actionFlow_plain action w :
  action ≠ VUndefined → action ≠ VNull →
  truthy (get_prop action "promise") = false →
  actionFlow next action w =
    (next action, World (dispatched w ++ [action]) (heap w) (queue w)).
Proof.
  intros Hu Hn Hf. unfold actionFlow, destructure_action, bind, ret.
  destruct action; try congruence; simpl in *; rewrite ?Hf; reflexivity.
Qed.

(** With a real promise and a pipeline that accepts the request action, the
    call dispatches the request action and answers what [then] answers. *)
Lemma actionFlow_promise fields p l r0 w :
  fields !! "promise" = Some (VPromise p) →
  iterate (get_prop (VObj fields) "types") = Some l →
  next (request_action (rest_of (VObj fields)) (element l 0)) = Normal r0 →
  actionFlow next (VObj fields) w =
    promise_then (VPromise p)
      (FlowFulfilled (rest_of (VObj fields)) (element l 1))
      (FlowRejected (rest_of (VObj fields)) (element l 2))
      (World (dispatched w ++ [request_action (rest_of (VObj fields)) (element l 0)])
             (heap w) (queue w)).
Proof.
  intros Hp Hl Hn.
  rewrite (actionFlow_flow _ (VPromise p) _ Hp eq_refl).
  unfold bind, destructure_types. rewrite Hl. simpl.
  unfold call_next. by rewrite Hn.
Qed.

(** When the pipeline raises on the request action the call raises the
    same exception, with the request action in the log and nothing
    registered on the promise. *)
Lemma actionFlow_request_refused fields promise l x w :
  fields !! "promise" = Some promise → truthy promise = true →
  iterate (get_prop (VObj fields) "types") = Some l →
  next (request_action (rest_of (VObj fields)) (element l 0)) = Throw x →
  actionFlow next (VObj fields) w =
    (Throw x,
     World (dispatched w ++ [request_action (rest_of (VObj fields)) (element l 0)])
           (heap w) (queue w)).
Proof.
  intros Hp Ht Hl Hn. rewrite (actionFlow_flow _ _ _ Hp Ht).
  unfold bind, destructure_types. rewrite Hl. simpl.
  unfold call_next. by rewrite Hn.
Qed.

(** ** The synchronous part *)

(** C1: an action with a truthy [promise] and [types = [A, B, C]] makes the
    middleware hand exactly one action to [next] before the call completes:
    [{ ...rest, type: A }].  It is tagged [A], has neither [promise] nor
    [types], has every other field name of the original, and agrees with
    the original on each of them (the tag itself apart). *)
Theorem request_dispatched_synchronously (fields : gmap string val)
    (promise A B C : val) (w : world) :
  fields !! "promise" = Some promise → truthy promise = true →
  fields !! "types" = Some (VArr [A; B; C]) →
  let REQUEST := request_action (rest_of (VObj fields)) A in
  dispatched (actionFlow next (VObj fields) w).2 = dispatched w ++ [REQUEST]
  ∧ own_props REQUEST !! "type" = Some A
  ∧ own_props REQUEST !! "promise" = None
  ∧ own_props REQUEST !! "types" = None
  ∧ (∀ k, k ≠ "promise" → k ≠ "types" →
       is_Some (fields !! k) → is_Some (own_props REQUEST !! k))
  ∧ (∀ k, k ≠ "promise" → k ≠ "types" → k ≠ "type" →
       own_props REQUEST !! k = fields !! k).
Proof.
  intros Hp Ht Hty REQUEST. split.
  - rewrite (actionFlow_flow _ _ _ Hp Ht).
    unfold bind, destructure_types, get_prop. rewrite Hty. simpl.
    destruct (next _); [|reflexivity].
    by rewrite promise_then_dispatched.
  - unfold REQUEST, request_action. simpl. repeat split.
    + apply lookup_insert_eq.
    + rewrite lookup_insert_ne by discriminate. apply rest_of_promise.
    + rewrite lookup_insert_ne by discriminate. apply rest_of_types.
    + intros k Hkp Hkt Hk. destruct (decide (k = "type")) as [->|Hne].
      * rewrite lookup_insert_eq. eauto.
      * rewrite lookup_insert_ne by congruence. by rewrite rest_of_lookup.
    + intros k Hkp Hkt Hne.
      rewrite lookup_insert_ne by congruence. by apply rest_of_lookup.
Qed.

(** C2: an action object without a [promise] field is handed to [next] as
    it is, the call answers what [next] answers, and nothing else happens
    (no other dispatch, nothing registered or scheduled). *)
Theorem plain_action_forwarded (fields : gmap string val) (w : world) :
  fields !! "promise" = None →
  actionFlow next (VObj fields) w =
    (next (VObj fields),
     World (dispatched w ++ [VObj fields]) (heap w) (queue w)).
Proof.
  intros Hp. apply actionFlow_plain; try discriminate.
  simpl. by rewrite Hp.
Qed.

(** C8: a [promise] field that is present but falsy ([null], [false], [0],
    the empty string, or any other falsy value) does not start a flow: the
    original action, falsy [promise] included, is handed to [next] and
    nothing else happens. *)
Theorem falsy_promise_forwarded (fields : gmap string val) (promise : val)
    (w : world) :
  fields !! "promise" = Some promise →
  promise ∈ [VNull; VBool false; VNum 0; VStr EmptyString] ∨ truthy promise = false →
  actionFlow next (VObj fields) w =
    (next (VObj fields),
     World (dispatched w ++ [VObj fields]) (heap w) (queue w))
  ∧ own_props (VObj fields) !! "promise" = Some promise.
Proof.
  intros Hp Hf. split; [|exact Hp].
  apply actionFlow_plain; try discriminate.
  simpl. rewrite Hp. simpl.
  destruct Hf as [Hin|Hf]; [|exact Hf].
  repeat (apply elem_of_cons in Hin as [->|Hin]; [reflexivity|]).
  by apply elem_of_nil in Hin.
Qed.

(** ** Plain jobs are bookkeeping *)

Lemma resolve_promise_moves d r w : rtc plain_move w (resolve_promise d r w).
Proof.
  unfold resolve_promise, fulfill_promise, reject_promise.
  destruct r; try (apply rtc_once, move_settle).
  case_decide; [apply rtc_once, move_settle|].
  by apply rtc_once, move_enqueue.
Qed.

Lemma promise_then_moves q f g w :
  is_flow f = false → is_flow g = false →
  rtc plain_move w (promise_then (VPromise q) f g w).2.
Proof.
  intros Hf Hg. unfold promise_then.
  destruct (heap w !! q) as [[st rs]|] eqn:Hq; [|apply rtc_refl].
  assert (plain_reaction (Reaction f g (List.length (heap w)))) by done.
  eapply rtc_l; [apply move_alloc|].
  destruct st as [|o]; simpl; apply rtc_once.
  - apply (move_register q rs _
             (World (dispatched w) (heap w ++ [Cell Pending []]) (queue w)));
      [|done].
    simpl. rewrite lookup_app_l; [done|]. by eapply lookup_lt_Some.
  - apply (move_enqueue _
             (World (dispatched w) (heap w ++ [Cell Pending []]) (queue w))).
    by destruct o.
Qed.

Lemma run_plain_job_moves j w :
  plain_job j → rtc plain_move w (run_job next j w).
Proof.
  intros Hj. destruct j as [h arg d|d q].
  - destruct h; try discriminate; simpl.
    + etrans; [apply resolve_promise_moves|].
      apply (resolve_promise_moves d VUndefined).
    + etrans; [apply rtc_once, (move_settle target (Rejected arg) w)|].
      apply (resolve_promise_moves d VUndefined).
  - pose proof (promise_then_moves q (ResolveFn d) (RejectFn d) w eq_refl eq_refl)
      as Hm.
    unfold run_job.
    destruct (promise_then _ _ _ w) as [[r|e] w']; simpl in Hm; [done|].
    etrans; [exact Hm | apply rtc_once, (move_settle d (Rejected e))].
Qed.

(** ** What bookkeeping preserves *)

Lemma plain_move_dispatched w w' :
  plain_move w w' → dispatched w' = dispatched w.
Proof. destruct 1; simpl; auto using dispatched_settle. Qed.

Lemma plain_reaction_jobs o rs :
  Forall plain_reaction rs → Forall plain_job (reaction_job o <$> rs).
Proof.
  intros Hrs. apply Forall_fmap. eapply Forall_impl; [exact Hrs|].
  intros r [Hf Hr]. by destruct o.
Qed.

(** A settled promise stays as it is. *)
Lemma state_of_move p o w w' :
  plain_move w w' → state_of p w = Settled o → state_of p w' = Settled o.
Proof.
  destruct 1 as [p' o' w|j w Hj|w|q rs r w Hq Hr]; intros Hs; try done.
  - unfold settle_promise.
    destruct (heap w !! p') as [[[] rs]|] eqn:Hc; try done.
    unfold state_of in *. simpl. destruct (decide (p = p')) as [->|Hne].
    + by rewrite Hc in Hs.
    + by rewrite list_lookup_insert_ne.
  - unfold state_of in *. simpl. destruct (heap w !! p) eqn:Hc; [|done].
    rewrite lookup_app_l; [by rewrite Hc | by eapply lookup_lt_Some].
  - unfold state_of in *. simpl. destruct (decide (p = q)) as [->|Hne].
    + by rewrite Hq in Hs.
    + by rewrite list_lookup_insert_ne.
Qed.

Lemma heap_plain_move w w' :
  plain_move w w' → Forall plain_cell (heap w) → Forall plain_cell (heap w').
Proof.
  destruct 1 as [p' o w|j w Hj|w|q rs r w Hq Hr]; intros Hh; simpl; try done.
  - unfold settle_promise.
    destruct (heap w !! p') as [[[] rs]|] eqn:Hc; simpl; try done.
    apply Forall_insert; [done | by apply Forall_nil].
  - apply Forall_app. split; [done|].
    constructor; [by apply Forall_nil | constructor].
  - apply Forall_insert; [done|]. unfold plain_cell. simpl.
    apply Forall_app. split; [|constructor; [exact Hr | constructor]].
    by apply (Forall_lookup_1 _ _ _ _ Hh Hq).
Qed.

(** Bookkeeping only appends plain jobs to the queue. *)
Lemma queue_plain_move w w' :
  plain_move w w' → Forall plain_cell (heap w) →
  ∃ extra, queue w' = queue w ++ extra ∧ Forall plain_job extra.
Proof.
  destruct 1 as [p' o w|j w Hj|w|q rs r w Hq Hr]; intros Hh; simpl.
  - unfold settle_promise.
    destruct (heap w !! p') as [[[] rs]|] eqn:Hc;
      try (exists []; by rewrite app_nil_r).
    simpl. eexists. split; [reflexivity|]. apply plain_reaction_jobs.
    by apply (Forall_lookup_1 _ _ _ _ Hh Hc).
  - exists [j]. by repeat constructor.
  - exists []. by rewrite app_nil_r.
  - exists []. by rewrite app_nil_r.
Qed.

Lemma quiet_move w w' :
  plain_move w w' → quiet w → quiet w'.
Proof.
  intros Hm [Hh Hq]. split; [by eapply heap_plain_move|].
  destruct (queue_plain_move _ _ Hm Hh) as (extra & -> & He).
  by apply Forall_app.
Qed.

Lemma quiet_moves w w' :
  rtc plain_move w w' → quiet w → quiet w' ∧ dispatched w' = dispatched w.
Proof.
  induction 1 as [|w1 w2 w3 Hm _ IH]; intros Hq; [done|].
  destruct (IH (quiet_move _ _ Hm Hq)) as [? ->].
  split; [done | by apply plain_move_dispatched].
Qed.

Lemma state_of_moves p o w w' :
  rtc plain_move w w' → state_of p w = Settled o → state_of p w' = Settled o.
Proof. induction 1; eauto using state_of_move. Qed.

(** In a quiet world nothing is dispatched by the event loop alone. *)
Lemma quiet_step w w' :
  step next w w' → quiet w → quiet w' ∧ dispatched w' = dispatched w.
Proof.
  intros Hstep Hq. destruct Hstep as [p' o w|w w' Hrun].
  - apply quiet_moves; [|done]. apply rtc_once. by constructor.
  - unfold run_next_job in Hrun.
    destruct (queue w) as [|j q] eqn:Hqueue; [done|]. injection Hrun as <-.
    destruct Hq as [Hh Hq]. rewrite Hqueue in Hq.
    apply Forall_cons in Hq as [Hj Hq].
    apply (quiet_moves (World (dispatched w) (heap w) q));
      [by apply run_plain_job_moves | by split].
Qed.

Lemma quiet_steps w w' :
  steps next w w' → quiet w → quiet w' ∧ dispatched w' = dispatched w.
Proof.
  induction 1 as [|w1 w2 w3 Hstep _ IH]; intros Hq; [done|].
  destruct (quiet_step _ _ Hstep Hq) as [Hq2 Hd].
  destruct (IH Hq2) as [? ->]. done.
Qed.

Lemma run_jobs_steps fuel w : steps next w (run_jobs next fuel w).
Proof.
  revert w. induction fuel as [|fuel IH]; intros w; simpl; [apply rtc_refl|].
  destruct (run_next_job next w) as [w'|] eqn:Hrun; [|apply rtc_refl].
  eapply rtc_l; [by apply step_job | apply IH].
Qed.

(** ** The phases of one flow action *)

Section Invariant.

Variables (base : list val) (p : nat) (rest : gmap string val).
Variables (REQUEST SUCCESS FAILURE : val).

Local Abbreviation flow_at := (flow_at base p rest REQUEST SUCCESS FAILURE).
Local Abbreviation flow_inv := (flow_inv base p rest REQUEST SUCCESS FAILURE).

(** Behind [n] jobs it stays behind [n] jobs: bookkeeping appends. *)
Lemma scheduled_move o n w w' :
  plain_move w w' → flow_at (Scheduled o n) w → flow_at (Scheduled o n) w'.
Proof.
  intros Hm Hat.
  inversion Hat as [|w0 o0 q1 q2 d Hs Hh Hq H1 H2 Hlog|]; subst.
  destruct (queue_plain_move _ _ Hm Hh) as (extra & Hq' & He).
  apply (flow_scheduled _ _ _ _ _ _ w' o q1 (q2 ++ extra) d).
  - by eapply state_of_move.
  - by eapply heap_plain_move.
  - by rewrite Hq', Hq, <- app_assoc.
  - done.
  - by apply Forall_app.
  - by rewrite (plain_move_dispatched _ _ Hm).
Qed.

Lemma done_move o w w' :
  plain_move w w' → flow_at (Done o) w → flow_at (Done o) w'.
Proof.
  intros Hm Hat. inversion Hat as [| |w0 o0 Hs Hquiet Hlog]; subst.
  apply flow_done.
  - by eapply state_of_move.
  - by eapply quiet_move.
  - by rewrite (plain_move_dispatched _ _ Hm).
Qed.

(** When the promise settles the reaction becomes a job, behind the jobs
    already queued and those of the reactions registered before it. *)
Lemma waiting_settle o w :
  flow_at Waiting w → ∃ n, flow_at (Scheduled o n) (settle_promise p o w).
Proof.
  intros Hat. inversion Hat as [w0 rs1 rs2 d Hp H1 H2 Hoth Hq Hlog| |]; subst.
  exists (List.length (queue w ++ (reaction_job o <$> rs1))).
  unfold settle_promise. rewrite Hp.
  apply (flow_scheduled _ _ _ _ _ _ _ o
           (queue w ++ (reaction_job o <$> rs1))
           (reaction_job o <$> rs2) d); simpl.
  - unfold state_of. simpl.
    rewrite list_lookup_insert_eq; [done | by eapply lookup_lt_Some].
  - apply Forall_lookup. intros i c Hl.
    apply list_lookup_insert_Some in Hl as [(_ & <- & _)|(Hi & Hl)].
    + by apply Forall_nil.
    + eapply Hoth; [|exact Hl]. done.
  - by rewrite fmap_app, fmap_cons, app_assoc.
  - apply Forall_app. split; [done | by apply plain_reaction_jobs].
  - by apply plain_reaction_jobs.
  - done.
Qed.

Lemma waiting_move w w' :
  plain_move w w' → flow_at Waiting w → flow_inv w'.
Proof.
  intros Hm Hat.
  inversion Hat as [w0 rs1 rs2 d Hp H1 H2 Hoth Hq Hlog| |]; subst.
  destruct Hm as [p' o w|j w Hj|w|q rs r w Hq' Hr].
  - destruct (decide (p' = p)) as [->|Hne].
    { destruct (waiting_settle o w Hat) as [n Hn]. by eexists. }
    exists Waiting. unfold settle_promise.
    destruct (heap w !! p') as [[[] rs]|] eqn:Hc; try done.
    apply (flow_waiting _ _ _ _ _ _ _ rs1 rs2 d); simpl; try done.
    + by rewrite list_lookup_insert_ne.
    + intros i c Hi Hl.
      apply list_lookup_insert_Some in Hl as [(_ & <- & _)|(_ & Hl)];
        [by apply Forall_nil | eauto].
    + apply Forall_app. split; [done|]. apply plain_reaction_jobs.
      apply (Hoth p' _ Hne Hc).
  - exists Waiting.
    apply (flow_waiting _ _ _ _ _ _ _ rs1 rs2 d); simpl; try done.
    apply Forall_app. split; [done | by repeat constructor].
  - exists Waiting.
    apply (flow_waiting _ _ _ _ _ _ _ rs1 rs2 d); simpl; try done.
    + rewrite lookup_app_l; [done | by eapply lookup_lt_Some].
    + intros i c Hi Hl. apply lookup_app_Some in Hl as [Hl|[_ Hl]]; [eauto|].
      apply list_lookup_singleton_Some in Hl as [_ <-]. by apply Forall_nil.
  - exists Waiting. destruct (decide (q = p)) as [->|Hne].
    + rewrite Hp in Hq'. injection Hq' as <-.
      apply (flow_waiting _ _ _ _ _ _ _ rs1 (rs2 ++ [r]) d); simpl; try done.
      * rewrite list_lookup_insert_eq by (by eapply lookup_lt_Some).
        by rewrite <- app_assoc.
      * apply Forall_app. split; [done | constructor; [done | constructor]].
      * intros i c Hi Hl. rewrite list_lookup_insert_ne in Hl by done. eauto.
    + apply (flow_waiting _ _ _ _ _ _ _ rs1 rs2 d); simpl; try done.
      * by rewrite list_lookup_insert_ne.
      * intros i c Hi Hl.
        apply list_lookup_insert_Some in Hl as [(_ & <- & _)|(_ & Hl)];
          [|eauto].
        unfold plain_cell. simpl. apply Forall_app.
        split; [apply (Hoth q _ Hne Hq') | constructor; [done | constructor]].
Qed.

Lemma flow_inv_move w w' : plain_move w w' → flow_inv w → flow_inv w'.
Proof.
  intros Hm [[|o n|o] Hat].
  - by eapply waiting_move.
  - exists (Scheduled o n). by eapply scheduled_move.
  - exists (Done o). by eapply done_move.
Qed.

Lemma flow_inv_moves w w' : rtc plain_move w w' → flow_inv w → flow_inv w'.
Proof. induction 1; eauto using flow_inv_move. Qed.

Lemma scheduled_moves o n w w' :
  rtc plain_move w w' → flow_at (Scheduled o n) w → flow_at (Scheduled o n) w'.
Proof. induction 1; eauto using scheduled_move. Qed.

Lemma done_moves o w w' :
  rtc plain_move w w' → flow_at (Done o) w → flow_at (Done o) w'.
Proof. induction 1; eauto using done_move. Qed.

(** A job ahead of the continuation runs: one job less ahead. *)
Lemma scheduled_job_behind o n w :
  flow_at (Scheduled o (S n)) w →
  ∃ w', run_next_job next w = Some w' ∧ flow_at (Scheduled o n) w'.
Proof.
  intros Hat. remember (Scheduled o (S n)) as ph eqn:Hph.
  destruct Hat as [|w o0 q1 q2 d Hs Hh Hq H1 H2 Hlog|]; try discriminate.
  injection Hph as -> Hn.
  destruct q1 as [|j q1]; [done|]. injection Hn as <-.
  apply Forall_cons in H1 as [Hj H1].
  unfold run_next_job. rewrite Hq. simpl. eexists. split; [reflexivity|].
  eapply scheduled_moves; [by apply run_plain_job_moves|].
  by apply (flow_scheduled _ _ _ _ _ _ _ o q1 q2 d).
Qed.

(** The continuation runs: it hands its action to [next]; settling the
    returned promise afterwards is bookkeeping. *)
Lemma scheduled_job_front o w :
  flow_at (Scheduled o 0) w →
  ∃ w', run_next_job next w = Some w' ∧ flow_at (Done o) w'.
Proof.
  intros Hat. remember (Scheduled o 0) as ph eqn:Hph.
  destruct Hat as [|w o0 q1 q2 d Hs Hh Hq H1 H2 Hlog|]; try discriminate.
  injection Hph as -> Hn.
  destruct q1 as [|j q1]; [|done]. simpl in Hq.
  unfold run_next_job. rewrite Hq. eexists. split; [reflexivity|].
  assert (Hdone : flow_at (Done o)
            (World (dispatched w ++ [outcome_action rest SUCCESS FAILURE o])
                   (heap w) q2)).
  { apply flow_done; simpl; try done. by rewrite Hlog, <- app_assoc. }
  destruct o as [v|e]; simpl;
    unfold onFulfilled, onRejected, bind, call_next, throw; simpl;
    destruct (next _) as [r|x];
    (eapply done_moves; [|exact Hdone]);
    first [apply resolve_promise_moves | apply rtc_once, move_settle].
Qed.

(** Liveness: behind [n] jobs, [n + 1] microtasks later the action is in
    the log. *)
Lemma scheduled_progress o n w :
  flow_at (Scheduled o n) w → flow_at (Done o) (run_jobs next (S n) w).
Proof.
  revert w. induction n as [|n IH]; intros w Hat.
  - destruct (scheduled_job_front o w Hat) as (w' & Hrun & Hdone).
    simpl. by rewrite Hrun.
  - destruct (scheduled_job_behind o n w Hat) as (w' & Hrun & Hat').
    change (run_jobs next (S (S n)) w)
      with (match run_next_job next w with
            | Some w' => run_jobs next (S n) w'
            | None => w
            end).
    rewrite Hrun. by apply IH.
Qed.

Lemma flow_inv_step w w' : step next w w' → flow_inv w → flow_inv w'.
Proof.
  intros Hstep Hinv. destruct Hstep as [p' o w|w w' Hrun].
  { eapply flow_inv_move; [apply move_settle | done]. }
  destruct Hinv as [[|o n|o] Hat].
  - inversion Hat as [w0 rs1 rs2 d Hp H1 H2 Hoth Hq Hlog| |]; subst.
    unfold run_next_job in Hrun.
    destruct (queue w) as [|j q] eqn:Hqueue; [done|]. injection Hrun as <-.
    apply Forall_cons in Hq as [Hj Hq].
    eapply flow_inv_moves; [by apply run_plain_job_moves|].
    exists Waiting. by apply (flow_waiting _ _ _ _ _ _ _ rs1 rs2 d).
  - destruct n as [|n].
    + destruct (scheduled_job_front o w Hat) as (w'' & Hrun' & Hdone).
      rewrite Hrun in Hrun'. injection Hrun' as <-. by exists (Done o).
    + destruct (scheduled_job_behind o n w Hat) as (w'' & Hrun' & Hat').
      rewrite Hrun in Hrun'. injection Hrun' as <-. by exists (Scheduled o n).
  - inversion Hat as [| |w0 o0 Hs [Hh Hq] Hlog]; subst.
    unfold run_next_job in Hrun.
    destruct (queue w) as [|j q] eqn:Hqueue; [done|]. injection Hrun as <-.
    apply Forall_cons in Hq as [Hj Hq].
    exists (Done o). eapply done_moves; [by apply run_plain_job_moves|].
    by apply flow_done.
Qed.

Lemma flow_inv_steps w w' : steps next w w' → flow_inv w → flow_inv w'.
Proof. induction 1; eauto using flow_inv_step. Qed.

(** What the invariant says about the log. *)
Lemma flow_inv_trace w :
  flow_inv w →
  ∃ tail,
    dispatched w = base ++ request_action rest REQUEST :: tail
    ∧ (tail = []
       ∨ (∃ v, state_of p w = Settled (Fulfilled v)
               ∧ tail = [success_action rest SUCCESS v])
       ∨ (∃ e, state_of p w = Settled (Rejected e)
               ∧ tail = [failure_action rest FAILURE e]))
    ∧ (state_of p w ≠ Pending → queue w = [] → tail ≠ []).
Proof.
  intros [ph Hat].
  destruct Hat as [w rs1 rs2 d Hp H1 H2 Hoth Hq Hlog
                  |w o q1 q2 d Hs Hh Hq H1 H2 Hlog
                  |w o Hs Hquiet Hlog].
  - exists []. repeat split; [done | by left|].
    intros Hs. unfold state_of in Hs. by rewrite Hp in Hs.
  - exists []. repeat split; [done | by left|].
    intros _ Hnil. rewrite Hnil in Hq. by destruct q1.
  - exists [outcome_action rest SUCCESS FAILURE o]. repeat split; [done| |done].
    right. destruct o as [v|e]; [left|right]; eauto.
Qed.

(** Liveness from any point of the life of the flow action: once the
    promise is settled, finitely many microtasks bring its action into the
    log. *)
Lemma flow_inv_live w o :
  flow_inv w →
  state_of p (settle_promise p o w) = Settled o →
  ∃ n, flow_at (Done o) (run_jobs next n (settle_promise p o w)).
Proof.
  intros [ph Hat] Hs. destruct ph as [|o' n|o'].
  - destruct (waiting_settle o w Hat) as [n Hn].
    exists (S n). by apply scheduled_progress.
  - assert (Hat' : flow_at (Scheduled o' n) (settle_promise p o w))
      by (eapply scheduled_move; [apply move_settle | done]).
    assert (o' = o) as ->.
    { inversion Hat' as [|w0 o0 q1 q2 d Hs'|]; subst. congruence. }
    exists (S n). by apply scheduled_progress.
  - assert (Hat' : flow_at (Done o') (settle_promise p o w))
      by (eapply done_move; [apply move_settle | done]).
    assert (o' = o) as ->.
    { inversion Hat' as [| |w0 o0 Hs']; subst. congruence. }
    by exists 0.
Qed.

End Invariant.

(** The call itself establishes the invariant. *)
Lemma flow_inv_init fields p l r0 w :
  fields !! "promise" = Some (VPromise p) →
  iterate (get_prop (VObj fields) "types") = Some l →
  is_Some (heap w !! p) → quiet w →
  next (request_action (rest_of (VObj fields)) (element l 0)) = Normal r0 →
  flow_inv (dispatched w) p (rest_of (VObj fields))
           (element l 0) (element l 1) (element l 2)
           (actionFlow next (VObj fields) w).2.
Proof.
  intros Hp Hl [[st rs] Hc] [Hh Hq] Hn.
  rewrite (actionFlow_promise _ _ _ _ _ Hp Hl Hn).
  assert (Hlt : p < List.length (heap w)) by (eapply lookup_lt_Some; eauto).
  pose proof (Forall_lookup_1 _ _ _ _ Hh Hc) as Hrs.
  unfold promise_then. simpl. rewrite Hc.
  destruct st as [|o]; simpl.
  - exists Waiting.
    apply (flow_waiting _ _ _ _ _ _ _ rs [] (List.length (heap w)));
      simpl; try done.
    + rewrite list_lookup_insert_eq; [done|]. rewrite length_app. simpl. lia.
    + intros i c Hi Hlk. rewrite list_lookup_insert_ne in Hlk by done.
      apply lookup_app_Some in Hlk as [Hlk|[_ Hlk]].
      * by apply (Forall_lookup_1 _ _ _ _ Hh Hlk).
      * apply list_lookup_singleton_Some in Hlk as [_ <-]. by apply Forall_nil.
  - exists (Scheduled o (List.length (queue w))).
    apply (flow_scheduled _ _ _ _ _ _ _ o (queue w) []
             (List.length (heap w))); simpl; try done.
    + unfold state_of. simpl. by rewrite lookup_app_l, Hc.
    + apply Forall_app. split; [done|].
      constructor; [by apply Forall_nil | constructor].
Qed.

(** ** One flow action from dispatch to settlement *)

(** The world once the call returned and the promise is settled with [o]
    (it was pending and settles, or it already was): the log holds the
    request action and the queue exactly the matching continuation. *)
Lemma flow_settled fields p l st o r0 w :
  fields !! "promise" = Some (VPromise p) →
  iterate (get_prop (VObj fields) "types") = Some l →
  heap w !! p = Some (Cell st []) → queue w = [] →
  st = Pending ∨ st = Settled o →
  next (request_action (rest_of (VObj fields)) (element l 0)) = Normal r0 →
  let rest := rest_of (VObj fields) in
  let d := List.length (heap w) in
  (actionFlow next (VObj fields) w).1 = Normal (VPromise d)
  ∧ settle_promise p o (actionFlow next (VObj fields) w).2 =
      World (dispatched w ++ [request_action rest (element l 0)])
            (<[p := Cell (Settled o) []]> (heap w ++ [Cell Pending []]))
            [reaction_job o (flow_reaction rest (element l 1) (element l 2) d)].
Proof.
  intros Hp Hl Hc Hq Hst Hn rest d.
  rewrite (actionFlow_promise _ _ _ _ _ Hp Hl Hn).
  assert (Hlt : p < List.length (heap w)) by (eapply lookup_lt_Some; eauto).
  unfold promise_then. simpl. rewrite Hc, Hq.
  destruct Hst as [->| ->].
  - split; [reflexivity|]. simpl.
    unfold settle_promise. simpl.
    rewrite list_lookup_insert_eq by (rewrite length_app; simpl; lia).
    rewrite list_insert_insert_eq. reflexivity.
  - assert (Hid : <[p := Cell (Settled o) []]> (heap w ++ [Cell Pending []])
                 = heap w ++ [Cell Pending []]).
    { apply list_insert_id. by rewrite lookup_app_l. }
    split; [reflexivity|]. simpl.
    unfold settle_promise. simpl. rewrite lookup_app_l by done.
    rewrite Hc, Hid. reflexivity.
Qed.

(** Running the continuation left by [flow_settled]: the handler matching
    the outcome calls [next] once, and the promise returned by the
    middleware is settled from what the handler did. *)
Lemma flow_job_runs rest SUCCESS FAILURE o log H d :
  run_next_job next
    (World log H [reaction_job o (flow_reaction rest SUCCESS FAILURE d)]) =
  Some
    (let a := outcome_action rest SUCCESS FAILURE o in
     let w' := World (log ++ [a]) H [] in
     match o, next a with
     | Fulfilled _, Normal r => resolve_promise d r w'
     | Rejected e, Normal _ => reject_promise d e w'
     | _, Throw x => reject_promise d x w'
     end).
Proof.
  destruct o as [v|e]; unfold run_next_job; simpl;
    unfold onFulfilled, onRejected, bind, call_next, throw; simpl;
    destruct (next _); reflexivity.
Qed.

(** The derived promise allocated by [then] is still pending when the
    continuation runs. *)
Lemma derived_pending (h : list cell) p c :
  p < List.length h →
  <[p := c]> (h ++ [Cell Pending []]) !! List.length h = Some (Cell Pending []).
Proof.
  intros Hlt. rewrite list_lookup_insert_ne by lia.
  rewrite lookup_app_r by lia. by rewrite Nat.sub_diag.
Qed.

(** From dispatch to settlement in one statement: after the call, once the
    promise is settled with [o], the next microtask dispatches the action
    of that outcome and settles the returned promise [d]. *)
Lemma flow_completes fields p l st o r0 w :
  fields !! "promise" = Some (VPromise p) →
  iterate (get_prop (VObj fields) "types") = Some l →
  heap w !! p = Some (Cell st []) → queue w = [] →
  st = Pending ∨ st = Settled o →
  next (request_action (rest_of (VObj fields)) (element l 0)) = Normal r0 →
  let rest := rest_of (VObj fields) in
  let d := List.length (heap w) in
  let a := outcome_action rest (element l 1) (element l 2) o in
  ∃ w',
    run_next_job next (settle_promise p o (actionFlow next (VObj fields) w).2)
      = Some w'
    ∧ dispatched w' = dispatched w ++ [request_action rest (element l 0); a]
    ∧ state_of p w' = Settled o
    ∧ (∀ v r, o = Fulfilled v → next a = Normal r →
         w' = resolve_promise d r
                (World (dispatched w ++ [request_action rest (element l 0); a])
                       (<[p := Cell (Settled o) []]>
                          (heap w ++ [Cell Pending []])) []))
    ∧ (∀ e r, o = Rejected e → next a = Normal r →
         state_of d w' = Settled (Rejected e))
    ∧ (∀ x, next a = Throw x → state_of d w' = Settled (Rejected x)).
Proof.
  intros Hp Hl Hc Hq Hst Hn rest d a.
  destruct (flow_settled _ _ _ _ _ _ _ Hp Hl Hc Hq Hst Hn) as [_ ->].
  assert (Hlt : p < List.length (heap w)) by (eapply lookup_lt_Some; eauto).
  eexists. split; [apply flow_job_runs|].
  cbv zeta. fold rest d a.
  replace ((dispatched w ++ [request_action rest (element l 0)]) ++ [a])
    with (dispatched w ++ [request_action rest (element l 0); a])
    by (by rewrite <- app_assoc).
  set (W := World _ _ []).
  assert (Hd : heap W !! d = Some (Cell Pending []))
    by (by apply derived_pending).
  assert (HW : state_of p W = Settled o).
  { unfold state_of, W. simpl.
    rewrite list_lookup_insert_eq; [done|]. rewrite length_app. simpl. lia. }
  destruct o as [v|e]; destruct (next a) as [r|x] eqn:Ha;
    (split; [first [apply dispatched_resolve | apply dispatched_settle]|]);
    (split; [eapply state_of_moves; [|exact HW];
             first [apply resolve_promise_moves | apply rtc_once, move_settle]|]);
    repeat split; intros; simplify_eq; try done;
    by eapply state_of_settle_pending.
Qed.

(** ** The asynchronous part *)

(** C3: for a flow action with [types = [A, B, C]] whose promise fulfils
    with [v] (it is pending at the call and then fulfils, or it is already
    fulfilled), the microtask that follows dispatches
    [{ ...rest, value: v, type: B }] right after the request action: tagged
    [B], carrying [value = v], and agreeing with the original action on its
    remaining fields.  The pipeline is assumed to accept the request
    action.  The example of the specification, [Promise.resolve(42)] with
    the [FETCH_*] kinds, is the instance [fetch_resolves_example]. *)
Theorem success_dispatched (fields : gmap string val) (p : nat)
    (A B C v : val) (st : pstate) (r0 : val) (w : world) :
  fields !! "promise" = Some (VPromise p) →
  fields !! "types" = Some (VArr [A; B; C]) →
  heap w !! p = Some (Cell st []) → queue w = [] →
  st = Pending ∨ st = Settled (Fulfilled v) →
  next (request_action (rest_of (VObj fields)) A) = Normal r0 →
  let rest := rest_of (VObj fields) in
  let SUCCESS := success_action rest B v in
  (∃ w',
     run_next_job next
       (fulfill_promise p v (actionFlow next (VObj fields) w).2) = Some w'
     ∧ dispatched w' = dispatched w ++ [request_action rest A; SUCCESS])
  ∧ own_props SUCCESS !! "type" = Some B
  ∧ own_props SUCCESS !! "value" = Some v
  ∧ (∀ k, k ≠ "promise" → k ≠ "types" → k ≠ "type" → k ≠ "value" →
       own_props SUCCESS !! k = fields !! k).
Proof.
  intros Hp Ht Hc Hq Hst Hn rest SUCCESS.
  split; [|apply success_action_fields].
  destruct (flow_completes fields p [A; B; C] st (Fulfilled v) r0 w)
    as (w' & Hrun & Hlog & _); auto using types_array.
  exists w'. split; [exact Hrun | exact Hlog].
Qed.

(** C4, as the code has it: for a flow action with [types = [A, B, C]]
    whose promise rejects with [e], the microtask that follows dispatches
    [{ ...rest, error: e, type: C }] right after the request action, and
    the promise the middleware returned is rejected: with the same [e] when
    [next] returns from the failure action, and with [x] when [next] raises
    [x] on it, the [throw error] of the handler not being reached then.
    The pipeline is assumed to accept the request action. *)
Theorem failure_dispatched_and_rethrown (fields : gmap string val) (p : nat)
    (A B C e : val) (st : pstate) (r0 : val) (w : world) :
  fields !! "promise" = Some (VPromise p) →
  fields !! "types" = Some (VArr [A; B; C]) →
  heap w !! p = Some (Cell st []) → queue w = [] →
  st = Pending ∨ st = Settled (Rejected e) →
  next (request_action (rest_of (VObj fields)) A) = Normal r0 →
  let rest := rest_of (VObj fields) in
  let FAILURE := failure_action rest C e in
  let d := List.length (heap w) in
  (actionFlow next (VObj fields) w).1 = Normal (VPromise d)
  ∧ (∃ w',
       run_next_job next
         (reject_promise p e (actionFlow next (VObj fields) w).2) = Some w'
       ∧ dispatched w' = dispatched w ++ [request_action rest A; FAILURE]
       ∧ state_of d w' =
           Settled (Rejected match next FAILURE with
                             | Normal _ => e
                             | Throw x => x
                             end))
  ∧ own_props FAILURE !! "type" = Some C
  ∧ own_props FAILURE !! "error" = Some e.
Proof.
  intros Hp Ht Hc Hq Hst Hn rest FAILURE d.
  pose proof (types_array _ _ Ht) as Hl.
  split; [apply (flow_settled fields p [A; B; C] st (Rejected e) r0 w); auto|].
  split; [|split; apply failure_action_fields].
  destruct (flow_completes fields p [A; B; C] st (Rejected e) r0 w)
    as (w' & Hrun & Hlog & _ & _ & Hrej & Hthrow); auto.
  exists w'. repeat split; [exact Hrun | exact Hlog |].
  fold rest d in Hrej, Hthrow.
  change (outcome_action rest (element [A; B; C] 1) (element [A; B; C] 2)
            (Rejected e)) with FAILURE in Hrej, Hthrow.
  destruct (next FAILURE) as [r1|x] eqn:Hf.
  - by eapply Hrej.
  - by apply Hthrow.
Qed.

(** C9: when the promise of a flow action fulfils with [v], the promise the
    middleware returned is resolved with what [next] answered for the
    success action: it is fulfilled with that answer (or follows it, when
    the answer is itself a promise), whatever [v] was. *)
Theorem returned_promise_resolves_to_next_result (fields : gmap string val)
    (p : nat) (A B C v : val) (st : pstate) (r0 r : val) (w : world) :
  fields !! "promise" = Some (VPromise p) →
  fields !! "types" = Some (VArr [A; B; C]) →
  heap w !! p = Some (Cell st []) → queue w = [] →
  st = Pending ∨ st = Settled (Fulfilled v) →
  next (request_action (rest_of (VObj fields)) A) = Normal r0 →
  next (success_action (rest_of (VObj fields)) B v) = Normal r →
  let rest := rest_of (VObj fields) in
  let d := List.length (heap w) in
  (actionFlow next (VObj fields) w).1 = Normal (VPromise d)
  ∧ ∃ w',
      run_next_job next
        (fulfill_promise p v (actionFlow next (VObj fields) w).2) = Some w'
      ∧ w' = resolve_promise d r
               (World (dispatched w ++
                         [request_action rest A; success_action rest B v])
                      (<[p := Cell (Settled (Fulfilled v)) []]>
                         (heap w ++ [Cell Pending []])) [])
      ∧ ((∀ q, r ≠ VPromise q) → state_of d w' = Settled (Fulfilled r)).
Proof.
  intros Hp Ht Hc Hq Hst Hn Hs rest d.
  pose proof (types_array _ _ Ht) as Hl.
  assert (Hlt : p < List.length (heap w)) by (eapply lookup_lt_Some; eauto).
  split; [apply (flow_settled fields p [A; B; C] st (Fulfilled v) r0 w); auto|].
  destruct (flow_completes fields p [A; B; C] st (Fulfilled v) r0 w)
    as (w' & Hrun & _ & _ & Hres & _); auto.
  exists w'. split; [exact Hrun|].
  specialize (Hres v r eq_refl Hs). simpl in Hres.
  split; [exact Hres|].
  intros Hnp. rewrite Hres.
  assert (Hful : ∀ W, resolve_promise d r W = fulfill_promise d r W).
  { intros W. destruct r; try reflexivity. by destruct (Hnp id). }
  rewrite Hful. unfold fulfill_promise.
  eapply state_of_settle_pending. simpl. by apply derived_pending.
Qed.

Lemma rest_of_types_irrelevant fields types :
  rest_of (VObj (<["types" := types]> fields)) = rest_of (VObj fields).
Proof.
  unfold rest_of. simpl. apply map_eq. intros k.
  rewrite !lookup_delete. repeat case_decide; try done.
  rewrite lookup_insert. by case_decide.
Qed.

(** C7: with a truthy [promise] and a [types] array of fewer than three
    elements nothing is validated and the short array raises nothing: the
    destructuring succeeds, the missing kinds read as [undefined], and the
    call does exactly what it does with the three kinds so obtained,
    whatever [promise] is.  The request action is dispatched with the kind
    at position 0.  When [promise] is a promise the call raises only what
    [next] raises on the request action and otherwise returns the derived
    promise; the flow once started, the success or failure action is
    dispatched finitely many microtasks after the promise settles, with
    its possibly [undefined] kind (no other flow action being under
    way). *)
Theorem short_types_give_undefined_tags (fields : gmap string val)
    (promise : val) (l : list val) (w : world) :
  fields !! "promise" = Some promise → truthy promise = true →
  fields !! "types" = Some (VArr l) → List.length l < 3 →
  let rest := rest_of (VObj fields) in
  let REQUEST := request_action rest (element l 0) in
  (∀ i, ¬ i < List.length l → element l i = VUndefined)
  ∧ element l 2 = VUndefined
  ∧ destructure_types (VArr l) w
    = (Normal (element l 0, element l 1, element l 2), w)
  ∧ actionFlow next (VObj fields) w =
      actionFlow next
        (VObj (<["types" := VArr [element l 0; element l 1; element l 2]]>
                 fields)) w
  ∧ dispatched (actionFlow next (VObj fields) w).2 = dispatched w ++ [REQUEST]
  ∧ (∀ p, promise = VPromise p → is_Some (heap w !! p) →
       (actionFlow next (VObj fields) w).1 =
         match next REQUEST with
         | Normal _ => Normal (VPromise (List.length (heap w)))
         | Throw x => Throw x
         end)
  ∧ (∀ p r0 w' o,
       promise = VPromise p → is_Some (heap w !! p) → quiet w →
       next REQUEST = Normal r0 →
       steps next (actionFlow next (VObj fields) w).2 w' →
       state_of p (settle_promise p o w') = Settled o →
       ∃ n, dispatched (run_jobs next n (settle_promise p o w')) =
              dispatched w ++
                [REQUEST; outcome_action rest (element l 1) VUndefined o]).
Proof.
  intros Hp Htr Ht Hlen rest REQUEST.
  pose proof (types_array _ _ Ht) as Hl.
  assert (Hmiss : ∀ i, ¬ i < List.length l → element l i = VUndefined).
  { intros i Hi. unfold element. by rewrite lookup_ge_None_2 by lia. }
  assert (H2 : element l 2 = VUndefined) by (apply Hmiss; lia).
  split; [exact Hmiss|]. split; [exact H2|].
  split; [reflexivity|].
  split.
  { rewrite (actionFlow_flow _ _ _ Hp Htr).
    rewrite (actionFlow_flow (<["types" := _]> fields) promise w)
      by (done || by rewrite lookup_insert_ne).
    rewrite rest_of_types_irrelevant.
    unfold bind, destructure_types. rewrite Hl. simpl.
    by rewrite lookup_insert_eq. }
  split.
  { rewrite (actionFlow_flow _ _ _ Hp Htr).
    unfold bind, destructure_types. rewrite Hl. simpl.
    destruct (next _); [|reflexivity].
    by rewrite promise_then_dispatched. }
  split.
  - intros p -> [[st rs] Hc].
    destruct (next REQUEST) as [r0|x] eqn:Hn.
    + rewrite (actionFlow_promise _ _ _ _ _ Hp Hl Hn).
      unfold promise_then. simpl. rewrite Hc. by destruct st.
    + by rewrite (actionFlow_request_refused _ _ _ _ _ Hp Htr Hl Hn).
  - intros p r0 w' o -> Hc Hquiet Hn Hsteps Hs.
    assert (Hinv : flow_inv (dispatched w) p rest
                     (element l 0) (element l 1) (element l 2) w').
    { eapply flow_inv_steps; [exact Hsteps|].
      by apply (flow_inv_init fields p l r0 w). }
    destruct (flow_inv_live _ _ _ _ _ _ _ o Hinv Hs) as [n Hdone].
    exists n. rewrite <- H2. by inversion Hdone.
Qed.

(** ** The life of a flow action *)

(** C5: after the request action, whatever settles and whichever
    microtasks run, the log holds at most one more action of this flow: the
    success action when the promise is fulfilled, the failure action when
    it is rejected, never both, never twice; and it holds it once the
    promise is settled and the queue is empty.  It does get dispatched:
    from any such point, when the promise settles (or has settled) with
    [o], finitely many microtasks later the log is exactly the request
    action followed by the action of [o].  The pipeline is assumed to
    accept the request action, and no other flow action to be under way. *)
Theorem exactly_one_outcome_dispatch (fields : gmap string val) (p : nat)
    (A B C r0 : val) (w w' : world) :
  fields !! "promise" = Some (VPromise p) →
  fields !! "types" = Some (VArr [A; B; C]) →
  is_Some (heap w !! p) → quiet w →
  next (request_action (rest_of (VObj fields)) A) = Normal r0 →
  steps next (actionFlow next (VObj fields) w).2 w' →
  let rest := rest_of (VObj fields) in
  (∃ tail,
     dispatched w' = dispatched w ++ request_action rest A :: tail
     ∧ (tail = []
        ∨ (∃ v, state_of p w' = Settled (Fulfilled v)
                ∧ tail = [success_action rest B v])
        ∨ (∃ e, state_of p w' = Settled (Rejected e)
                ∧ tail = [failure_action rest C e]))
     ∧ (state_of p w' ≠ Pending → queue w' = [] → tail ≠ []))
  ∧ (∀ o, state_of p (settle_promise p o w') = Settled o →
       ∃ n, dispatched (run_jobs next n (settle_promise p o w')) =
              dispatched w ++ [request_action rest A;
                               outcome_action rest B C o]).
Proof.
  intros Hp Ht Hc Hquiet Hn Hsteps rest.
  pose proof (types_array _ _ Ht) as Hl.
  assert (Hinv : flow_inv (dispatched w) p rest A B C w').
  { eapply flow_inv_steps; [exact Hsteps|].
    by apply (flow_inv_init fields p [A; B; C] r0 w). }
  split; [by apply flow_inv_trace|].
  intros o Hs.
  destruct (flow_inv_live _ _ _ _ _ _ _ o Hinv Hs) as [n Hdone].
  exists n. by inversion Hdone.
Qed.

(** C6, as the code has it: every action this flow dispatches is the
    request action, the success action or the failure action, and a field
    of the original action other than [promise] and [types] is carried
    over with its value unless the derived action overwrites it: [type] in
    all three, [value] in the success action, [error] in the failure
    action. *)
Theorem rest_fields_kept_unless_overwritten (fields : gmap string val)
    (p : nat) (A B C r0 : val) (w w' : world) (i : nat) (a : val)
    (k : string) (x : val) :
  fields !! "promise" = Some (VPromise p) →
  fields !! "types" = Some (VArr [A; B; C]) →
  is_Some (heap w !! p) → quiet w →
  next (request_action (rest_of (VObj fields)) A) = Normal r0 →
  steps next (actionFlow next (VObj fields) w).2 w' →
  dispatched w' !! (List.length (dispatched w) + i) = Some a →
  fields !! k = Some x → k ≠ "promise" → k ≠ "types" → k ≠ "type" →
  let rest := rest_of (VObj fields) in
  (i = 0 ∧ a = request_action rest A ∧ own_props a !! k = Some x)
  ∨ (i = 1 ∧ ∃ v, state_of p w' = Settled (Fulfilled v)
                  ∧ a = success_action rest B v
                  ∧ (k ≠ "value" → own_props a !! k = Some x))
  ∨ (i = 1 ∧ ∃ e, state_of p w' = Settled (Rejected e)
                  ∧ a = failure_action rest C e
                  ∧ (k ≠ "error" → own_props a !! k = Some x)).
Proof.
  intros Hp Ht Hc Hquiet Hn Hsteps Ha Hk Hkp Hkt Hkty rest.
  pose proof (types_array _ _ Ht) as Hl.
  destruct (flow_inv_trace (dispatched w) p rest A B C w')
    as (tail & Hlog & Htail & _).
  { eapply flow_inv_steps; [exact Hsteps|].
    by apply (flow_inv_init fields p [A; B; C] r0 w). }
  rewrite Hlog in Ha. rewrite lookup_app_r in Ha by lia.
  replace (List.length (dispatched w) + i - List.length (dispatched w))
    with i in Ha by lia.
  destruct i as [|i]; simpl in Ha.
  - left. injection Ha as <-. repeat split. simpl.
    rewrite lookup_insert_ne by congruence.
    subst rest. by rewrite rest_of_lookup.
  - right. destruct Htail as [->|[(v & Hs & ->)|(e & Hs & ->)]]; [done| |].
    + left. destruct i; [|done]. injection Ha as <-.
      split; [done|]. exists v. repeat split; [done|]. intros Hv.
      rewrite <- Hk. by apply success_action_fields.
    + right. destruct i; [|done]. injection Ha as <-.
      split; [done|]. exists e. repeat split; [done|]. intros He.
      rewrite <- Hk. by apply failure_action_fields.
Qed.

(** C10: a truthy [promise] with [types] undefined makes the call throw a
    [TypeError] at the destructuring of [types], with the world untouched:
    nothing was handed to [next], nothing registered, nothing scheduled, so
    that (no other flow action being under way) nothing is dispatched later
    either. *)
Theorem missing_types_throws (fields : gmap string val) (promise : val)
    (w : world) :
  fields !! "promise" = Some promise → truthy promise = true →
  get_prop (VObj fields) "types" = VUndefined →
  actionFlow next (VObj fields) w = (Throw VTypeError, w)
  ∧ (quiet w → ∀ w', steps next w w' → dispatched w' = dispatched w).
Proof.
  intros Hp Ht Hty. split.
  - rewrite (actionFlow_flow _ _ _ Hp Ht).
    unfold bind, destructure_types. by rewrite Hty.
  - intros Hq w' Hsteps. by apply quiet_steps.
Qed.

End Properties.

(** * Worked examples

    The theorems above at the inputs of the specification's examples. *)

(** The request action is in the log when the call completes, even with a
    pipeline that raises on it. *)
Lemma request_dispatched_example :
  dispatched (actionFlow failing_next fetch_action (one_promise Pending)).2
  = [VObj {["type" := VStr "FETCH_START"]}].
Proof.
  edestruct (request_dispatched_synchronously failing_next
               (<["types" := fetch_types]> {["promise" := VPromise 0]})
               (VPromise 0) (VStr "FETCH_START") (VStr "FETCH_OK")
               (VStr "FETCH_ERR") (one_promise Pending)) as [Hlog _];
    [reflexivity..|].
  etrans; [exact Hlog|]. vm_compute. reflexivity.
Defined.

(** [{ type: 'PING' }] goes through as it is. *)
Lemma plain_action_example :
  actionFlow store_next (VObj {["type" := VStr "PING"]}) (one_promise Pending)
  = (Normal (VObj {["type" := VStr "PING"]}),
     World [VObj {["type" := VStr "PING"]}] [Cell Pending []] []).
Proof.
  apply (plain_action_forwarded store_next {["type" := VStr "PING"]}
           (one_promise Pending)).
  reflexivity.
Defined.

(** [{ promise: null }], [{ promise: false }], [{ promise: 0 }] and
    [{ promise: '' }] go through as they are. *)
Lemma falsy_promise_example :
  Forall (λ promise,
            actionFlow store_next (VObj {["promise" := promise]}) (World [] [] [])
            = (Normal (VObj {["promise" := promise]}),
               World [VObj {["promise" := promise]}] [] []))
         [VNull; VBool false; VNum 0; VStr EmptyString].
Proof.
  apply Forall_forall. intros promise Hin.
  eapply proj1,
    (falsy_promise_forwarded store_next {["promise" := promise]} promise
       (World [] [] [])); [reflexivity | left; exact Hin].
Defined.

(** [Promise.resolve(42)] with the [FETCH_*] kinds: [{type:'FETCH_START'}]
    then [{type:'FETCH_OK', value:42}]. *)
Lemma fetch_resolves_example :
  ∃ w',
    run_next_job store_next
      (fulfill_promise 0 (VNum 42)
         (actionFlow store_next fetch_action
            (one_promise (Settled (Fulfilled (VNum 42))))).2) = Some w'
    ∧ dispatched w' =
        [VObj {["type" := VStr "FETCH_START"]};
         VObj (<["type" := VStr "FETCH_OK"]> {["value" := VNum 42]})].
Proof.
  edestruct (success_dispatched store_next
               (<["types" := fetch_types]> {["promise" := VPromise 0]}) 0
               (VStr "FETCH_START") (VStr "FETCH_OK") (VStr "FETCH_ERR")
               (VNum 42) (Settled (Fulfilled (VNum 42)))
               (request_action (rest_of fetch_action) (VStr "FETCH_START"))
               (one_promise (Settled (Fulfilled (VNum 42)))))
    as [(w' & Hrun & Hlog) _];
    [reflexivity | reflexivity | reflexivity | reflexivity
    | right; reflexivity | reflexivity |].
  exists w'. split; [exact Hrun|].
  etrans; [exact Hlog|]. vm_compute. reflexivity.
Defined.

(** [Promise.reject('boom')]: [{type:'FETCH_START'}] then
    [{type:'FETCH_ERR', error:'boom'}], and the returned promise (cell [1])
    is rejected with ['boom']. *)
Lemma fetch_rejects_example :
  (actionFlow store_next fetch_action
     (one_promise (Settled (Rejected (VStr "boom"))))).1 = Normal (VPromise 1)
  ∧ ∃ w',
      run_next_job store_next
        (reject_promise 0 (VStr "boom")
           (actionFlow store_next fetch_action
              (one_promise (Settled (Rejected (VStr "boom"))))).2) = Some w'
      ∧ dispatched w' =
          [VObj {["type" := VStr "FETCH_START"]};
           VObj (<["type" := VStr "FETCH_ERR"]> {["error" := VStr "boom"]})]
      ∧ state_of 1 w' = Settled (Rejected (VStr "boom")).
Proof.
  edestruct (failure_dispatched_and_rethrown store_next
               (<["types" := fetch_types]> {["promise" := VPromise 0]}) 0
               (VStr "FETCH_START") (VStr "FETCH_OK") (VStr "FETCH_ERR")
               (VStr "boom") (Settled (Rejected (VStr "boom")))
               (request_action (rest_of fetch_action) (VStr "FETCH_START"))
               (one_promise (Settled (Rejected (VStr "boom")))))
    as (Hret & (w' & Hrun & Hlog & Hstate) & _);
    [reflexivity | reflexivity | reflexivity | reflexivity
    | right; reflexivity | reflexivity |].
  split; [exact Hret|].
  exists w'. repeat split; [exact Hrun | |].
  - etrans; [exact Hlog|]. vm_compute. reflexivity.
  - etrans; [exact Hstate|]. reflexivity.
Defined.

(** ... but with a pipeline that raises ['down'] on the failure action the
    returned promise is rejected with ['down'], not with the reason
    ['boom'] of the original promise. *)
Lemma failure_reason_replaced :
  let w1 := (actionFlow start_only_next fetch_action (one_promise Pending)).2 in
  (actionFlow start_only_next fetch_action (one_promise Pending)).1
  = Normal (VPromise 1)
  ∧ ∃ w',
      run_next_job start_only_next (reject_promise 0 (VStr "boom") w1)
        = Some w'
      ∧ dispatched w' =
          [VObj {["type" := VStr "FETCH_START"]};
           VObj (<["type" := VStr "FETCH_ERR"]> {["error" := VStr "boom"]})]
      ∧ state_of 1 w' = Settled (Rejected (VStr "down"))
      ∧ state_of 1 w' ≠ Settled (Rejected (VStr "boom")).
Proof.
  intros w1. split; [reflexivity|].
  eexists. split; [vm_compute; reflexivity|].
  split; [vm_compute; reflexivity|].
  split; [vm_compute; reflexivity|].
  vm_compute. discriminate.
Qed.

(** A pending promise that later rejects: finitely many microtasks after
    the rejection the log is the request action and one failure action. *)
Lemma fetch_outcome_example :
  ∃ n,
    dispatched
      (run_jobs store_next n
         (settle_promise 0 (Rejected (VStr "boom"))
            (actionFlow store_next fetch_action (one_promise Pending)).2)) =
      [VObj {["type" := VStr "FETCH_START"]};
       VObj (<["type" := VStr "FETCH_ERR"]> {["error" := VStr "boom"]})].
Proof.
  edestruct (exactly_one_outcome_dispatch store_next
               (<["types" := fetch_types]> {["promise" := VPromise 0]}) 0
               (VStr "FETCH_START") (VStr "FETCH_OK") (VStr "FETCH_ERR")
               (request_action (rest_of fetch_action) (VStr "FETCH_START"))
               (one_promise Pending)
               (actionFlow store_next fetch_action (one_promise Pending)).2)
    as [_ Hlive];
    [reflexivity | reflexivity | by eexists | by apply (bool_decide_unpack _)
    | reflexivity | apply rtc_refl |].
  destruct (Hlive (Rejected (VStr "boom"))) as [n Hn]; [reflexivity|].
  exists n. etrans; [exact Hn|]. vm_compute. reflexivity.
Defined.

(** The returned promise is fulfilled with the answer of [next], here the
    success action itself, not with [42]. *)
Lemma fetch_returned_promise_example :
  (actionFlow store_next fetch_action
     (one_promise (Settled (Fulfilled (VNum 42))))).1 = Normal (VPromise 1)
  ∧ ∃ w',
      run_next_job store_next
        (fulfill_promise 0 (VNum 42)
           (actionFlow store_next fetch_action
              (one_promise (Settled (Fulfilled (VNum 42))))).2) = Some w'
      ∧ state_of 1 w' =
          Settled (Fulfilled
            (VObj (<["type" := VStr "FETCH_OK"]> {["value" := VNum 42]}))).
Proof.
  edestruct (returned_promise_resolves_to_next_result store_next
               (<["types" := fetch_types]> {["promise" := VPromise 0]}) 0
               (VStr "FETCH_START") (VStr "FETCH_OK") (VStr "FETCH_ERR")
               (VNum 42) (Settled (Fulfilled (VNum 42)))
               (request_action (rest_of fetch_action) (VStr "FETCH_START"))
               (success_action (rest_of fetch_action) (VStr "FETCH_OK")
                               (VNum 42))
               (one_promise (Settled (Fulfilled (VNum 42)))))
    as (Hret & w' & Hrun & _ & Hstate);
    [reflexivity | reflexivity | reflexivity | reflexivity
    | right; reflexivity | reflexivity | reflexivity |].
  split; [exact Hret|].
  exists w'. split; [exact Hrun|].
  etrans; [apply Hstate; discriminate|]. vm_compute. reflexivity.
Defined.

(** A field named [value] on the flow action survives in the request
    action ... *)
Lemma labelled_request_example :
  own_props (request_action (rest_of labelled_action) (VStr "FETCH_START"))
    !! "value" = Some (VStr "mine").
Proof.
  edestruct (rest_fields_kept_unless_overwritten store_next
               (<["value" := VStr "mine"]>
                  (<["types" := fetch_types]> {["promise" := VPromise 0]}))
               0 (VStr "FETCH_START") (VStr "FETCH_OK") (VStr "FETCH_ERR")
               (request_action (rest_of labelled_action) (VStr "FETCH_START"))
               (one_promise (Settled (Fulfilled (VNum 42))))
               (actionFlow store_next labelled_action
                  (one_promise (Settled (Fulfilled (VNum 42))))).2
               0 (request_action (rest_of labelled_action) (VStr "FETCH_START"))
               "value" (VStr "mine"))
    as [(_ & _ & Hk)|[(Hi & _)|(Hi & _)]];
    [reflexivity | reflexivity | by eexists | by apply (bool_decide_unpack _)
    | reflexivity | apply rtc_refl | reflexivity | reflexivity
    | discriminate | discriminate | discriminate | exact Hk
    | discriminate Hi | discriminate Hi].
Defined.

(** ... but not in the success action, where the resolved value replaces
    it. *)
Lemma labelled_value_overwritten :
  let w' := run_jobs store_next 1
              (actionFlow store_next labelled_action
                 (one_promise (Settled (Fulfilled (VNum 42))))).2 in
  own_props labelled_action !! "value" = Some (VStr "mine")
  ∧ dispatched w' =
      [VObj (<["type" := VStr "FETCH_START"]> {["value" := VStr "mine"]});
       VObj (<["type" := VStr "FETCH_OK"]> {["value" := VNum 42]})]
  ∧ ¬ (∀ a, a ∈ dispatched w' →
            own_props a !! "value" = own_props labelled_action !! "value").
Proof.
  intros w'.
  assert (Hlog : dispatched w' =
      [VObj (<["type" := VStr "FETCH_START"]> {["value" := VStr "mine"]});
       VObj (<["type" := VStr "FETCH_OK"]> {["value" := VNum 42]})])
    by (vm_compute; reflexivity).
  split; [reflexivity|]. split; [exact Hlog|].
  intros Hall.
  specialize (Hall (VObj (<["type" := VStr "FETCH_OK"]> {["value" := VNum 42]}))).
  rewrite Hlog in Hall.
  assert (Hin : VObj (<["type" := VStr "FETCH_OK"]> {["value" := VNum 42]})
                ∈ [VObj (<["type" := VStr "FETCH_START"]> {["value" := VStr "mine"]});
                   VObj (<["type" := VStr "FETCH_OK"]> {["value" := VNum 42]})])
    by (right; left).
  specialize (Hall Hin). vm_compute in Hall. discriminate Hall.
Qed.

(** One kind instead of three: the failure action goes out tagged
    [undefined]. *)
Lemma short_types_example :
  (actionFlow store_next short_action (one_promise Pending)).1
  = Normal (VPromise 1)
  ∧ ∃ n,
      dispatched
        (run_jobs store_next n
           (settle_promise 0 (Rejected (VStr "boom"))
              (actionFlow store_next short_action (one_promise Pending)).2))
      = [VObj {["type" := VStr "ONLY_START"]};
         VObj (<["type" := VUndefined]> {["error" := VStr "boom"]})].
Proof.
  edestruct (short_types_give_undefined_tags store_next
               (<["types" := VArr [VStr "ONLY_START"]]> {["promise" := VPromise 0]})
               (VPromise 0) [VStr "ONLY_START"] (one_promise Pending))
    as (_ & _ & _ & _ & _ & Hret & Hflow);
    [reflexivity | reflexivity | reflexivity | simpl; lia |].
  split.
  - etrans; [apply (Hret 0); [reflexivity | by eexists]|]. reflexivity.
  - destruct (Hflow 0
                (request_action (rest_of short_action) (VStr "ONLY_START"))
                (actionFlow store_next short_action (one_promise Pending)).2
                (Rejected (VStr "boom")))
      as [n Hlog];
      [reflexivity | by eexists | by apply (bool_decide_unpack _)
      | reflexivity | apply rtc_refl | reflexivity |].
    exists n. etrans; [exact Hlog|]. vm_compute. reflexivity.
Defined.

(** [{ promise }] alone: a [TypeError], and the world as it was. *)
Lemma untyped_action_example :
  actionFlow store_next untyped_action (one_promise Pending)
  = (Throw VTypeError, one_promise Pending).
Proof.
  eapply proj1, (missing_types_throws store_next
                   {["promise" := VPromise 0]} (VPromise 0));
    reflexivity.
Defined.

(** * Further properties of the middleware

    Edge behaviour of [actionFlow] beyond the flow of a well-formed action:
    what it does with other kinds of values, with a pipeline that raises,
    and what it leaves alone. *)

Section Edges.

Variable next : val → completion val.

(** The flow branch depends on [types] through its first three elements
    only. *)
Lemma actionFlow_same_kinds fields promise types1 types2 l1 l2 w :
  fields !! "promise" = Some promise → truthy promise = true →
  iterate types1 = Some l1 → iterate types2 = Some l2 →
  element l1 0 = element l2 0 → element l1 1 = element l2 1 →
  element l1 2 = element l2 2 →
  actionFlow next (VObj (<["types" := types1]> fields)) w =
  actionFlow next (VObj (<["types" := types2]> fields)) w.
Proof.
  intros Hp Ht H1 H2 E0 E1 E2.
  rewrite !(actionFlow_flow next _ promise)
    by (done || by rewrite lookup_insert_ne).
  rewrite !rest_of_types_irrelevant.
  unfold bind, destructure_types. simpl. rewrite !lookup_insert_eq. simpl.
  rewrite H1, H2. simpl. by rewrite E0, E1, E2.
Qed.

(** X1: handed [undefined] or [null], the middleware raises a [TypeError]
    at the destructuring of the action: [next] is not called and nothing
    is registered or scheduled. *)
Theorem nullish_action_throws (action : val) (w : world) :
  action = VUndefined ∨ action = VNull →
  actionFlow next action w = (Throw VTypeError, w).
Proof. by intros [-> | ->]. Qed.

(** X2: any other value that is not an object (a string, a number, a
    boolean, an array, a promise) has no [promise] property and is handed
    to [next] as it is, like a plain action. *)
Theorem non_object_action_forwarded (action : val) (w : world) :
  (∀ props, action ≠ VObj props) →
  action ≠ VUndefined → action ≠ VNull →
  actionFlow next action w =
    (next action, World (dispatched w ++ [action]) (heap w) (queue w)).
Proof.
  intros Hobj Hu Hn. apply actionFlow_plain; try done.
  destruct action; try done. by destruct (Hobj props).
Qed.

(** X3: with a truthy [promise], a [types] that cannot be iterated
    ([undefined], [null], a boolean, a number, a plain object, a promise)
    makes the call raise a [TypeError] before [next] is called; the world
    is left as it was. *)
Theorem non_iterable_types_throw (fields : gmap string val)
    (promise : val) (w : world) :
  fields !! "promise" = Some promise → truthy promise = true →
  (∀ l, get_prop (VObj fields) "types" ≠ VArr l) →
  (∀ s, get_prop (VObj fields) "types" ≠ VStr s) →
  actionFlow next (VObj fields) w = (Throw VTypeError, w).
Proof.
  intros Hp Ht Harr Hstr. rewrite (actionFlow_flow next _ _ _ Hp Ht).
  unfold bind, destructure_types.
  destruct (get_prop (VObj fields) "types") eqn:Hty; try reflexivity.
  - by destruct (Hstr s).
  - by destruct (Harr elems).
Qed.

(** X4: elements of [types] beyond the third are ignored: a longer array
    behaves exactly like its first three elements. *)
Theorem types_beyond_third_ignored (fields : gmap string val)
    (promise A B C : val) (more : list val) (w : world) :
  fields !! "promise" = Some promise → truthy promise = true →
  actionFlow next (VObj (<["types" := VArr (A :: B :: C :: more)]> fields)) w =
  actionFlow next (VObj (<["types" := VArr [A; B; C]]> fields)) w.
Proof.
  intros Hp Ht.
  by apply (actionFlow_same_kinds fields promise _ _
              (A :: B :: C :: more) [A; B; C]).
Qed.

(** X5: a string is iterable, so a [types] given as a string is accepted
    without complaint: its characters are taken as the kinds, exactly as
    if the array of its one-character strings had been given. *)
Theorem string_types_split_into_characters (fields : gmap string val)
    (promise : val) (s : string) (w : world) :
  fields !! "promise" = Some promise → truthy promise = true →
  actionFlow next (VObj (<["types" := VStr s]> fields)) w =
  actionFlow next
    (VObj (<["types" :=
              VArr ((λ c, VStr (String c EmptyString)) <$>
                      String.list_ascii_of_string s)]> fields)) w.
Proof.
  intros Hp Ht.
  by eapply (actionFlow_same_kinds fields promise).
Qed.

(** X6: a truthy [promise] that is not a promise ([true], a number, a
    string, an array, a plain object) gets its request action dispatched
    and then makes the call raise a [TypeError], [then] not being a
    function; nothing is registered, so no further action follows. *)
Theorem truthy_non_promise_raises (fields : gmap string val)
    (promise : val) (l : list val) (r0 : val) (w : world) :
  fields !! "promise" = Some promise → truthy promise = true →
  (∀ p, promise ≠ VPromise p) →
  iterate (get_prop (VObj fields) "types") = Some l →
  next (request_action (rest_of (VObj fields)) (element l 0)) = Normal r0 →
  actionFlow next (VObj fields) w =
    (Throw VTypeError,
     World (dispatched w ++ [request_action (rest_of (VObj fields)) (element l 0)])
           (heap w) (queue w)).
Proof.
  intros Hp Ht Hnp Hl Hn. rewrite (actionFlow_flow next _ _ _ Hp Ht).
  unfold bind, destructure_types. rewrite Hl. simpl.
  unfold call_next. rewrite Hn. simpl.
  destruct promise; try reflexivity. by destruct (Hnp id).
Qed.

(** X7: when [next] raises on the request action the call raises the same
    exception and the promise is never subscribed to: whatever settles
    afterwards and whichever microtasks run, neither a success nor a
    failure action is dispatched (no other flow action being under way). *)
Theorem refused_request_ends_flow (fields : gmap string val)
    (promise : val) (l : list val) (x : val) (w w' : world) :
  fields !! "promise" = Some promise → truthy promise = true →
  iterate (get_prop (VObj fields) "types") = Some l →
  next (request_action (rest_of (VObj fields)) (element l 0)) = Throw x →
  quiet w →
  steps next (actionFlow next (VObj fields) w).2 w' →
  (actionFlow next (VObj fields) w).1 = Throw x
  ∧ dispatched w' =
      dispatched w ++ [request_action (rest_of (VObj fields)) (element l 0)].
Proof.
  intros Hp Ht Hl Hn Hq Hsteps.
  rewrite (actionFlow_request_refused next _ _ _ _ _ Hp Ht Hl Hn) in *.
  split; [reflexivity|].
  by apply (quiet_steps next _ _ Hsteps).
Qed.

(** X8: when [next] raises [x] while a continuation hands it the success
    or the failure action, that action is in the log all the same and the
    promise the middleware returned is rejected with [x]; for a failure
    the original reason is replaced by [x]. *)
Theorem pipeline_exception_rejects_returned_promise
    (fields : gmap string val) (p : nat) (l : list val) (st : pstate)
    (o : outcome) (r0 x : val) (w : world) :
  fields !! "promise" = Some (VPromise p) →
  iterate (get_prop (VObj fields) "types") = Some l →
  heap w !! p = Some (Cell st []) → queue w = [] →
  st = Pending ∨ st = Settled o →
  next (request_action (rest_of (VObj fields)) (element l 0)) = Normal r0 →
  let rest := rest_of (VObj fields) in
  let a := outcome_action rest (element l 1) (element l 2) o in
  next a = Throw x →
  ∃ w',
    run_next_job next (settle_promise p o (actionFlow next (VObj fields) w).2)
      = Some w'
    ∧ dispatched w' = dispatched w ++ [request_action rest (element l 0); a]
    ∧ state_of (List.length (heap w)) w' = Settled (Rejected x).
Proof.
  intros Hp Hl Hc Hq Hst Hn rest a Ha.
  destruct (flow_completes next fields p l st o r0 w)
    as (w' & Hrun & Hlog & _ & _ & _ & Hthrow); auto.
  exists w'. repeat split; [exact Hrun | exact Hlog | by apply Hthrow].
Qed.

(** [then] only adds: one fresh promise, and one reaction or one job. *)
Lemma promise_then_frame promise f g w :
  dispatched (promise_then promise f g w).2 = dispatched w
  ∧ queue w `prefix_of` queue (promise_then promise f g w).2
  ∧ (∀ i c, heap w !! i = Some c →
       ∃ c', heap (promise_then promise f g w).2 !! i = Some c'
             ∧ c_state c' = c_state c
             ∧ c_reactions c `prefix_of` c_reactions c').
Proof.
  split; [apply promise_then_dispatched|].
  unfold promise_then.
  destruct promise; try (split; [done | intros i c Hc; by exists c]).
  destruct (heap w !! id) as [[st rs]|] eqn:Hp;
    [|split; [done | intros i c Hc; by exists c]].
  destruct st as [|o]; simpl.
  - split; [done|]. intros i c Hc.
    assert (Hi : i < List.length (heap w)) by (by eapply lookup_lt_Some).
    destruct (decide (i = id)) as [->|Hne].
    + rewrite Hp in Hc. injection Hc as <-. eexists. split.
      * apply list_lookup_insert_eq. rewrite length_app. simpl. lia.
      * split; [done | by apply prefix_app_r].
    + exists c. rewrite list_lookup_insert_ne by done.
      by rewrite lookup_app_l.
  - split; [by apply prefix_app_r|]. intros i c Hc. exists c.
    rewrite lookup_app_l; [done | by eapply lookup_lt_Some].
Qed.

(** X9: whatever the action, the call itself only adds to the world: it
    hands at most one action to [next], keeps every queued microtask in
    place, and leaves every existing promise in the state it was in with
    its reactions still registered, in the same order, ahead of its own. *)
Theorem call_only_adds (action : val) (w : world) :
  let w1 := (actionFlow next action w).2 in
  dispatched w `prefix_of` dispatched w1
  ∧ List.length (dispatched w1) < List.length (dispatched w) + 2
  ∧ queue w `prefix_of` queue w1
  ∧ (∀ i c, heap w !! i = Some c →
       ∃ c', heap w1 !! i = Some c'
             ∧ c_state c' = c_state c
             ∧ c_reactions c `prefix_of` c_reactions c').
Proof.
  pose (P := λ w1 : world,
    dispatched w `prefix_of` dispatched w1
    ∧ List.length (dispatched w1) < List.length (dispatched w) + 2
    ∧ queue w `prefix_of` queue w1
    ∧ (∀ i c, heap w !! i = Some c →
         ∃ c', heap w1 !! i = Some c'
               ∧ c_state c' = c_state c
               ∧ c_reactions c `prefix_of` c_reactions c')).
  assert (Hnone : P w).
  { repeat split; [done | lia | done|]. intros i c Hc. by exists c. }
  assert (Hone : ∀ a, P (World (dispatched w ++ [a]) (heap w) (queue w))).
  { intros a. repeat split; simpl; [by apply prefix_app_r| |done|].
    - rewrite length_app. simpl. lia.
    - intros i c Hc. by exists c. }
  change (P (actionFlow next action w).2).
  unfold actionFlow, bind, destructure_action, ret, throw.
  destruct action; try apply Hone; try apply Hnone.
  simpl. destruct (truthy _); simpl; [|apply Hone].
  unfold destructure_types.
  destruct (iterate _) as [l|]; simpl; [|apply Hnone].
  unfold call_next. destruct (next _) as [r|x]; simpl; [|apply Hone].
  match goal with
  | |- context [promise_then ?pr ?f ?g ?W] =>
      destruct (promise_then_frame pr f g W) as (Hd & Hqueue & Hheap)
  end.
  repeat split; [| |exact Hqueue | exact Hheap]; rewrite Hd; simpl.
  - by apply prefix_app_r.
  - rewrite length_app. simpl. lia.
Qed.

(** X10: with a real promise, the call answers with a promise of its own:
    a fresh one, neither the caller's nor any other existing one, and
    still pending when the call returns, even if the caller's promise was
    already settled; only the request action has been dispatched by
    then. *)
Theorem returned_promise_fresh_and_pending (fields : gmap string val)
    (p : nat) (l : list val) (r0 : val) (w : world) :
  fields !! "promise" = Some (VPromise p) →
  iterate (get_prop (VObj fields) "types") = Some l →
  is_Some (heap w !! p) →
  next (request_action (rest_of (VObj fields)) (element l 0)) = Normal r0 →
  let d := List.length (heap w) in
  let w1 := (actionFlow next (VObj fields) w).2 in
  (actionFlow next (VObj fields) w).1 = Normal (VPromise d)
  ∧ d ≠ p ∧ heap w !! d = None
  ∧ heap w1 !! d = Some (Cell Pending [])
  ∧ dispatched w1 =
      dispatched w ++ [request_action (rest_of (VObj fields)) (element l 0)].
Proof.
  intros Hp Hl [[st rs] Hc] Hn d w1. unfold w1.
  rewrite (actionFlow_promise next _ _ _ _ _ Hp Hl Hn).
  assert (Hlt : p < List.length (heap w)) by (by eapply lookup_lt_Some).
  unfold promise_then. simpl. rewrite Hc.
  destruct st as [|o]; simpl;
    (repeat split; [unfold d; lia | by apply lookup_ge_None_2 |]).
  - rewrite list_lookup_insert_ne by (unfold d; lia).
    rewrite lookup_app_r by done. by rewrite Nat.sub_diag.
  - rewrite lookup_app_r by done. by rewrite Nat.sub_diag.
Qed.

(** The job run for a follower [d] of a settled promise settles [d] the
    same way. *)
Lemma follower_job_settles d d2 oq rs w :
  heap w !! d = Some (Cell Pending rs) →
  (∀ x q', oq = Fulfilled x → x ≠ VPromise q') →
  state_of d
    (run_job next (reaction_job oq (Reaction (ResolveFn d) (RejectFn d) d2)) w)
  = Settled oq.
Proof.
  intros Hd Hnp. destruct oq as [x|e]; simpl.
  - eapply state_of_moves; [apply (resolve_promise_moves d2 VUndefined)|].
    assert (Hful : resolve_promise d x w = fulfill_promise d x w).
    { destruct x; try reflexivity. by destruct (Hnp (VPromise id) id). }
    rewrite Hful. by eapply state_of_settle_pending.
  - eapply state_of_moves; [apply (resolve_promise_moves d2 VUndefined)|].
    by eapply state_of_settle_pending.
Qed.

(** X11: when [next] answers the success action with a promise [q] of its
    own, the promise the middleware returned follows [q]: two microtasks
    after the fulfilment it is subscribed to [q], and one microtask after
    [q] settles (or at once, if [q] already was) it is settled the way [q]
    is, not fulfilled with the promise object. *)
Theorem returned_promise_follows_next_promise (fields : gmap string val)
    (p q : nat) (l : list val) (st stq : pstate) (v r0 : val) (oq : outcome)
    (w : world) :
  fields !! "promise" = Some (VPromise p) →
  iterate (get_prop (VObj fields) "types") = Some l →
  heap w !! p = Some (Cell st []) → queue w = [] →
  st = Pending ∨ st = Settled (Fulfilled v) →
  q ≠ p → heap w !! q = Some (Cell stq []) →
  stq = Pending ∨ stq = Settled oq →
  (∀ x q', oq = Fulfilled x → x ≠ VPromise q') →
  next (request_action (rest_of (VObj fields)) (element l 0)) = Normal r0 →
  next (success_action (rest_of (VObj fields)) (element l 1) v)
    = Normal (VPromise q) →
  state_of (List.length (heap w))
    (run_jobs next 1
       (settle_promise q oq
          (run_jobs next 2
             (fulfill_promise p v (actionFlow next (VObj fields) w).2))))
  = Settled oq.
Proof.
  intros Hp Hl Hc Hq Hst Hqp Hcq Hstq Hnp Hn Hs.
  assert (Hlt : p < List.length (heap w)) by (by eapply lookup_lt_Some).
  assert (Hltq : q < List.length (heap w)) by (by eapply lookup_lt_Some).
  destruct (flow_completes next fields p l st (Fulfilled v) r0 w)
    as (w' & Hrun & _ & _ & Hres & _); auto.
  specialize (Hres v (VPromise q) eq_refl Hs).
  unfold fulfill_promise.
  change (run_jobs next 2 ?X)
    with (match run_next_job next X with
          | Some w' => run_jobs next 1 w'
          | None => X
          end).
  rewrite Hrun, Hres. clear Hrun Hres w'.
  set (H := <[p := Cell (Settled (Fulfilled v)) []]>
              (heap w ++ [Cell Pending []])).
  set (L := dispatched w ++ _).
  assert (HlenH : List.length H = S (List.length (heap w))).
  { unfold H. rewrite length_insert, length_app. simpl. lia. }
  assert (HHq : H !! q = Some (Cell stq [])).
  { unfold H. rewrite list_lookup_insert_ne by done. by rewrite lookup_app_l. }
  assert (HHd : H !! List.length (heap w) = Some (Cell Pending []))
    by (by apply derived_pending).
  unfold resolve_promise. rewrite decide_False by lia. simpl.
  unfold run_next_job. simpl. unfold promise_then. simpl. rewrite HHq.
  set (R := Reaction (ResolveFn (List.length (heap w)))
                     (RejectFn (List.length (heap w))) (List.length H)).
  destruct Hstq as [-> | ->]; simpl.
  - unfold settle_promise. simpl.
    rewrite list_lookup_insert_eq by (rewrite length_app; simpl; lia).
    simpl. apply (follower_job_settles _ _ _ []); [|done]. simpl.
    rewrite !list_lookup_insert_ne by lia. by rewrite lookup_app_l by lia.
  - unfold settle_promise. simpl. rewrite lookup_app_l by lia. rewrite HHq.
    simpl. apply (follower_job_settles _ _ _ []); [|done]. simpl.
    by rewrite lookup_app_l by lia.
Qed.

(** ** Two flow actions under way *)

(** The call on a pending promise, whatever is already registered on it. *)
Lemma flow_call_pending fields p l rs r0 w :
  fields !! "promise" = Some (VPromise p) →
  iterate (get_prop (VObj fields) "types") = Some l →
  heap w !! p = Some (Cell Pending rs) →
  next (request_action (rest_of (VObj fields)) (element l 0)) = Normal r0 →
  (actionFlow next (VObj fields) w).2 =
    World (dispatched w ++ [request_action (rest_of (VObj fields)) (element l 0)])
          (<[p := Cell Pending
                   (rs ++ [flow_reaction (rest_of (VObj fields))
                             (element l 1) (element l 2)
                             (List.length (heap w))])]>
             (heap w ++ [Cell Pending []]))
          (queue w).
Proof.
  intros Hp Hl Hc Hn. rewrite (actionFlow_promise next _ _ _ _ _ Hp Hl Hn).
  unfold promise_then. simpl. by rewrite Hc.
Qed.

Lemma run_jobs_one w :
  run_jobs next 1 w =
    match run_next_job next w with Some w' => w' | None => w end.
Proof. reflexivity. Qed.

(** A lone continuation runs as soon as its promise settles. *)
Lemma settled_flow_dispatches rest SUCCESS FAILURE d p o w :
  heap w !! p = Some (Cell Pending [flow_reaction rest SUCCESS FAILURE d]) →
  queue w = [] →
  dispatched (run_jobs next 1 (settle_promise p o w)) =
    dispatched w ++ [outcome_action rest SUCCESS FAILURE o].
Proof.
  intros Hc Hq. unfold settle_promise. rewrite Hc, Hq.
  change ([] ++ (reaction_job o <$> [flow_reaction rest SUCCESS FAILURE d]))
    with [reaction_job o (flow_reaction rest SUCCESS FAILURE d)].
  rewrite run_jobs_one, flow_job_runs. cbv zeta.
  destruct o as [v|e]; destruct (next _) as [r|x];
    first [apply dispatched_resolve | apply dispatched_settle].
Qed.

(** When [next] does not answer with a promise, running the continuation
    leaves an empty queue and touches two promises only: the settled one
    and the one the middleware returned. *)
Lemma settled_flow_runs rest SUCCESS FAILURE d p o w :
  heap w !! p = Some (Cell Pending [flow_reaction rest SUCCESS FAILURE d]) →
  heap w !! d = Some (Cell Pending []) → p ≠ d →
  queue w = [] →
  (∀ q, next (outcome_action rest SUCCESS FAILURE o) ≠ Normal (VPromise q)) →
  ∃ od,
    run_jobs next 1 (settle_promise p o w) =
      World (dispatched w ++ [outcome_action rest SUCCESS FAILURE o])
            (<[d := Cell (Settled od) []]>
               (<[p := Cell (Settled o) []]> (heap w)))
            [].
Proof.
  intros Hc Hd Hpd Hq Hnp. unfold settle_promise at 1. rewrite Hc, Hq.
  change ([] ++ (reaction_job o <$> [flow_reaction rest SUCCESS FAILURE d]))
    with [reaction_job o (flow_reaction rest SUCCESS FAILURE d)].
  rewrite run_jobs_one, flow_job_runs. cbv zeta.
  assert (Hd' : <[p := Cell (Settled o) []]> (heap w) !! d
                = Some (Cell Pending []))
    by (by rewrite list_lookup_insert_ne).
  assert (Hset : ∀ od log,
    settle_promise d od
      (World log (<[p := Cell (Settled o) []]> (heap w)) []) =
    World log (<[d := Cell (Settled od) []]>
                 (<[p := Cell (Settled o) []]> (heap w))) []).
  { intros od log. unfold settle_promise. simpl. by rewrite Hd'. }
  destruct o as [v|e];
    destruct (next _) as [r|x] eqn:Hr; eexists;
    unfold reject_promise; rewrite ?Hset; try reflexivity.
  unfold resolve_promise.
  destruct r; unfold fulfill_promise; rewrite ?Hset; try reflexivity.
  by destruct (Hnp id).
Qed.

(** X12: two flow actions dispatched one after the other on two pending
    promises do not disturb each other, and their outcomes reach [next] in
    the order in which the promises settle, not in the order of dispatch:
    if the second promise settles first, its action comes first. *)
Theorem outcomes_follow_settlement_order (fields1 fields2 : gmap string val)
    (p1 p2 : nat) (l1 l2 : list val) (o1 o2 : outcome) (r1 r2 : val)
    (w : world) :
  fields1 !! "promise" = Some (VPromise p1) →
  fields2 !! "promise" = Some (VPromise p2) →
  iterate (get_prop (VObj fields1) "types") = Some l1 →
  iterate (get_prop (VObj fields2) "types") = Some l2 →
  p1 ≠ p2 →
  heap w !! p1 = Some (Cell Pending []) →
  heap w !! p2 = Some (Cell Pending []) →
  queue w = [] →
  let rest1 := rest_of (VObj fields1) in
  let rest2 := rest_of (VObj fields2) in
  let a1 := outcome_action rest1 (element l1 1) (element l1 2) o1 in
  let a2 := outcome_action rest2 (element l2 1) (element l2 2) o2 in
  next (request_action rest1 (element l1 0)) = Normal r1 →
  next (request_action rest2 (element l2 0)) = Normal r2 →
  (∀ q, next a2 ≠ Normal (VPromise q)) →
  let w2 := (actionFlow next (VObj fields2)
               (actionFlow next (VObj fields1) w).2).2 in
  dispatched
    (run_jobs next 1
       (settle_promise p1 o1
          (run_jobs next 1 (settle_promise p2 o2 w2)))) =
  dispatched w ++ [request_action rest1 (element l1 0);
                   request_action rest2 (element l2 0); a2; a1].
Proof.
  intros Hp1 Hp2 Hl1 Hl2 Hne Hc1 Hc2 Hq rest1 rest2 a1 a2 Hn1 Hn2 Hnp w2.
  assert (Hlt1 : p1 < List.length (heap w)) by (by eapply lookup_lt_Some).
  assert (Hlt2 : p2 < List.length (heap w)) by (by eapply lookup_lt_Some).
  unfold w2.
  rewrite (flow_call_pending fields1 p1 l1 [] r1 w) by done.
  set (H1 := <[p1 := _]> (heap w ++ [Cell Pending []])).
  assert (Hlen1 : List.length H1 = S (List.length (heap w))).
  { unfold H1. rewrite length_insert, length_app. simpl. lia. }
  rewrite (flow_call_pending fields2 p2 l2 [] r2 (World _ H1 _));
    [|done|done| |exact Hn2].
  2: { simpl. unfold H1. rewrite list_lookup_insert_ne by done.
       by rewrite lookup_app_l. }
  cbn [heap dispatched queue app].
  set (H2 := <[p2 := _]> (H1 ++ [Cell Pending []])).
  destruct (settled_flow_runs rest2 (element l2 1) (element l2 2)
              (List.length H1) p2 o2
              (World ((dispatched w ++ [request_action rest1 (element l1 0)])
                        ++ [request_action rest2 (element l2 0)])
                     H2 (queue w)))
    as [od Hrun]; cbn [heap dispatched queue]; try done.
  { unfold H2. rewrite list_lookup_insert_eq; [done|].
    rewrite length_app. simpl. lia. }
  { unfold H2. rewrite list_lookup_insert_ne by lia.
    rewrite lookup_app_r by lia. by rewrite Nat.sub_diag. }
  { lia. }
  cbn [heap dispatched queue] in Hrun.
  fold rest1 rest2 a2 in Hrun |- *. rewrite Hrun.
  rewrite (settled_flow_dispatches rest1 (element l1 1) (element l1 2)
             (List.length (heap w))); cbn [heap dispatched queue].
  - fold a1. by rewrite <- !app_assoc.
  - rewrite !list_lookup_insert_ne by lia. unfold H2.
    rewrite list_lookup_insert_ne by done.
    rewrite lookup_app_l by lia. unfold H1.
    rewrite list_lookup_insert_eq; [done|]. rewrite length_app. simpl. lia.
  - done.
Qed.

End Edges.

(** * The middleware with the reducers of the README *)

Section ApplicationProperties.

Variable next : val → completion val.
Variables (DATA_FETCH_START DATA_FETCH_SUCCESS DATA_FETCH_FAIL : string).
Variables (SHARED_MESSAGE_UPDATE SHARED_MESSAGE_CLOSE : string).
Variables (SHARED_MESSAGE_CLOSE_START SHARED_MESSAGE_CLOSE_FAIL : string).

Local Ltac unfold_application :=
  unfold dataReducer, sharedMessageReducer, update, close, delayedClose,
    fetchData.
Local Ltac unfold_creators := unfold update, close, delayedClose, fetchData.

Local Abbreviation dataReducer :=
  (dataReducer DATA_FETCH_START DATA_FETCH_SUCCESS DATA_FETCH_FAIL).
Local Abbreviation sharedMessageReducer :=
  (sharedMessageReducer SHARED_MESSAGE_UPDATE SHARED_MESSAGE_CLOSE).
Local Abbreviation update := (update SHARED_MESSAGE_UPDATE).
Local Abbreviation close := (close SHARED_MESSAGE_CLOSE).
Local Abbreviation delayedClose :=
  (delayedClose SHARED_MESSAGE_CLOSE SHARED_MESSAGE_CLOSE_START
                SHARED_MESSAGE_CLOSE_FAIL).
Local Abbreviation fetchData :=
  (fetchData DATA_FETCH_START DATA_FETCH_SUCCESS DATA_FETCH_FAIL).

Lemma is_kind_same KIND : is_kind (VStr KIND) KIND = true.
Proof. apply String.eqb_refl. Qed.

Lemma is_kind_other K1 K2 : K1 ≠ K2 → is_kind (VStr K1) K2 = false.
Proof. intros Hne. by apply String.eqb_neq. Qed.

Lemma drop_dispatched (base new : list val) :
  drop (List.length base) (base ++ new) = new.
Proof. by rewrite drop_app_length. Qed.

(** The two derived worlds of a flow action without fields of its own. *)
Lemma bare_flow_completes KIND1 KIND2 KIND3 p st o r0 w :
  heap w !! p = Some (Cell st []) → queue w = [] →
  st = Pending ∨ st = Settled o →
  next (request_action ∅ (VStr KIND1)) = Normal r0 →
  let action :=
    VObj (<["promise" := VPromise p]>
            {["types" := VArr [VStr KIND1; VStr KIND2; VStr KIND3]]}) in
  dispatched (actionFlow next action w).2 =
    dispatched w ++ [request_action ∅ (VStr KIND1)]
  ∧ ∃ w',
      run_next_job next (settle_promise p o (actionFlow next action w).2)
        = Some w'
      ∧ dispatched w' =
          dispatched w ++ [request_action ∅ (VStr KIND1);
                           outcome_action ∅ (VStr KIND2) (VStr KIND3) o].
Proof.
  intros Hc Hq Hst Hn action.
  set (fields := (<["promise" := VPromise p]>
                    {["types" := VArr [VStr KIND1; VStr KIND2; VStr KIND3]]})
                 : gmap string val).
  assert (Hp : fields !! "promise" = Some (VPromise p)) by reflexivity.
  assert (Hl : iterate (get_prop (VObj fields) "types")
               = Some [VStr KIND1; VStr KIND2; VStr KIND3]) by reflexivity.
  assert (Hrest : rest_of (VObj fields) = ∅) by reflexivity.
  split.
  - unfold action. fold fields.
    rewrite (actionFlow_promise next fields p _ r0 w Hp Hl)
      by (by rewrite Hrest).
    by rewrite promise_then_dispatched, Hrest.
  - destruct (flow_completes next fields p _ st o r0 w Hp Hl Hc Hq Hst)
      as (w' & Hrun & Hlog & _); [by rewrite Hrest|].
    exists w'. split; [exact Hrun|]. by rewrite Hlog, Hrest.
Qed.

(** ** The reducers on the derived actions *)

Lemma request_action_type rest KIND :
  get_prop (request_action rest KIND) "type" = KIND.
Proof. simpl. by rewrite lookup_insert_eq. Qed.

Lemma success_action_type rest KIND value :
  get_prop (success_action rest KIND value) "type" = KIND.
Proof. simpl. by rewrite lookup_insert_eq. Qed.

Lemma success_action_value rest KIND value :
  get_prop (success_action rest KIND value) "value" = value.
Proof.
  simpl. rewrite lookup_insert_ne by discriminate. by rewrite lookup_insert_eq.
Qed.

Lemma failure_action_type rest KIND error :
  get_prop (failure_action rest KIND error) "type" = KIND.
Proof. simpl. by rewrite lookup_insert_eq. Qed.

Lemma failure_action_error rest KIND error :
  get_prop (failure_action rest KIND error) "error" = error.
Proof.
  simpl. rewrite lookup_insert_ne by discriminate. by rewrite lookup_insert_eq.
Qed.

(** What [Object.assign] built has no own [__proto__] key, so that
    copying it again copies all of it. *)
Lemma assigned_copied_whole k x (m : gmap string val) :
  k ≠ "__proto__" →
  delete "__proto__" (<[k := x]> (delete "__proto__" m))
  = <[k := x]> (delete "__proto__" m).
Proof.
  intros Hk. apply delete_id.
  rewrite lookup_insert_ne by done. apply lookup_delete_eq.
Qed.

Lemma dataReducer_start m rest :
  dataReducer (VObj m) (request_action rest (VStr DATA_FETCH_START))
  = Normal (VObj (<["fetchDataProgress" := progress true VNull]>
                    (delete "__proto__" m))).
Proof.
  unfold_application. cbv zeta.
  change (request_action rest (VStr DATA_FETCH_START))
    with (VObj (<["type" := VStr DATA_FETCH_START]> rest)) at 1.
  cbv iota beta. rewrite request_action_type. by rewrite is_kind_same.
Qed.

Lemma dataReducer_success m rest v :
  DATA_FETCH_SUCCESS ≠ DATA_FETCH_START →
  DATA_FETCH_SUCCESS ≠ DATA_FETCH_FAIL →
  dataReducer (VObj m) (success_action rest (VStr DATA_FETCH_SUCCESS) v)
  = Normal (VObj (<["data" := v]>
                    (<["fetchDataProgress" := progress false VNull]>
                       (delete "__proto__" m)))).
Proof.
  intros H1 H2. unfold_application. cbv zeta.
  change (success_action rest (VStr DATA_FETCH_SUCCESS) v)
    with (VObj (<["type" := VStr DATA_FETCH_SUCCESS]> (<["value" := v]> rest)))
    at 1.
  cbv iota beta. rewrite success_action_type, success_action_value.
  by rewrite !is_kind_other, is_kind_same by done.
Qed.

Lemma dataReducer_fail m rest e :
  DATA_FETCH_FAIL ≠ DATA_FETCH_START →
  dataReducer (VObj m) (failure_action rest (VStr DATA_FETCH_FAIL) e)
  = Normal (VObj (<["fetchDataProgress" := progress false e]>
                    (delete "__proto__" m))).
Proof.
  intros H1. unfold_application. cbv zeta.
  change (failure_action rest (VStr DATA_FETCH_FAIL) e)
    with (VObj (<["type" := VStr DATA_FETCH_FAIL]> (<["error" := e]> rest)))
    at 1.
  cbv iota beta. rewrite failure_action_type, failure_action_error.
  by rewrite is_kind_other, is_kind_same by done.
Qed.

(** ** The data reducer *)

(** X13: on an object state the data reducer never raises for an action
    that is not [undefined] or [null].  For a kind it handles it builds a
    new object with [Object.assign], which keeps every own entry of the
    state other than [fetchDataProgress], [data] and [__proto__], and has
    no own [__proto__] entry; [data] changes only for a success action.
    For a kind it does not handle it hands back the state itself. *)
Theorem dataReducer_keeps_other_state (m : gmap string val) (action : val) :
  action ≠ VUndefined → action ≠ VNull →
  ∃ m',
    dataReducer (VObj m) action = Normal (VObj m')
    ∧ (∀ k, k ≠ "fetchDataProgress" → k ≠ "data" → k ≠ "__proto__" →
         m' !! k = m !! k)
    ∧ (m' !! "data" ≠ m !! "data" →
       is_kind (get_prop action "type") DATA_FETCH_SUCCESS = true)
    ∧ (is_kind (get_prop action "type") DATA_FETCH_START
       || is_kind (get_prop action "type") DATA_FETCH_FAIL
       || is_kind (get_prop action "type") DATA_FETCH_SUCCESS = true →
       m' !! "__proto__" = None)
    ∧ (is_kind (get_prop action "type") DATA_FETCH_START = false →
       is_kind (get_prop action "type") DATA_FETCH_FAIL = false →
       is_kind (get_prop action "type") DATA_FETCH_SUCCESS = false →
       m' = m).
Proof.
  intros Hu Hn.
  assert (Hred : dataReducer (VObj m) action =
    let type := get_prop action "type" in
    if is_kind type DATA_FETCH_START then
      Normal (VObj (<["fetchDataProgress" := progress true VNull]>
                      (delete "__proto__" m)))
    else if is_kind type DATA_FETCH_FAIL then
      Normal (VObj (<["fetchDataProgress" :=
                        progress false (get_prop action "error")]>
                      (delete "__proto__" m)))
    else if is_kind type DATA_FETCH_SUCCESS then
      Normal (VObj (<["data" := get_prop action "value"]>
                      (<["fetchDataProgress" := progress false VNull]>
                         (delete "__proto__" m))))
    else Normal (VObj m)) by (by destruct action).
  rewrite Hred. cbv zeta. clear Hred.
  destruct (is_kind _ DATA_FETCH_START) eqn:H1;
    [|destruct (is_kind _ DATA_FETCH_FAIL) eqn:H2;
      [|destruct (is_kind _ DATA_FETCH_SUCCESS) eqn:H3]];
    eexists; (split; [reflexivity|]); repeat split; try done;
    try (intros k Hk1 Hk2 Hk3;
         by rewrite !lookup_insert_ne, lookup_delete_ne by congruence);
    try (intros Hd; exfalso; apply Hd;
         by rewrite lookup_insert_ne, lookup_delete_ne by discriminate);
    try (intros _; rewrite !lookup_insert_ne by discriminate;
         apply lookup_delete_eq).
Qed.

(** X14: the initial state keeps its progress under [errors], but every
    handled action writes a progress record with the entries [loading] and
    [error] only: from the first start, success or failure action on, the
    state has no [errors] entry any more, whatever state it started
    from. *)
Theorem handled_action_drops_errors_entry (state action : val) :
  action ≠ VUndefined → action ≠ VNull →
  is_kind (get_prop action "type") DATA_FETCH_START
  || is_kind (get_prop action "type") DATA_FETCH_FAIL
  || is_kind (get_prop action "type") DATA_FETCH_SUCCESS = true →
  own_props (get_prop data_initialState "fetchDataProgress") !! "errors"
    = Some VNull
  ∧ own_props (get_prop data_initialState "fetchDataProgress") !! "error"
    = None
  ∧ ∃ m' loading error,
      dataReducer state action = Normal (VObj m')
      ∧ m' !! "fetchDataProgress" = Some (progress loading error)
      ∧ own_props (progress loading error) !! "errors" = None
      ∧ own_props (progress loading error) !! "error" = Some error.
Proof.
  intros Hu Hn Hk. split; [reflexivity|]. split; [reflexivity|].
  unfold_application.
  destruct action; try done;
    (destruct (is_kind _ DATA_FETCH_START);
      [|destruct (is_kind _ DATA_FETCH_FAIL);
        [|destruct (is_kind _ DATA_FETCH_SUCCESS); [|done]]]);
    eexists _, _, _; (split; [reflexivity|]);
    (split; [by rewrite ?(lookup_insert_ne _ "data") by discriminate;
                apply lookup_insert_eq | by split]).
Qed.

(** X15: the fetch of the README, start to success.  Fed with the actions
    the middleware dispatches for [fetchData()], the data reducer shows
    [loading] as soon as the call returns and, once the promise is
    fulfilled with [v], ends with [data = v], [loading = false] and
    [error = null]; the rest of the state is kept, except for an own
    [__proto__] entry, which [Object.assign] does not copy.  The three
    kinds are assumed distinct where the reducer tells them apart. *)
Theorem fetch_success_reaches_state (m : gmap string val) (p : nat)
    (v : val) (st : pstate) (r0 : val) (w : world) :
  DATA_FETCH_SUCCESS ≠ DATA_FETCH_START →
  DATA_FETCH_SUCCESS ≠ DATA_FETCH_FAIL →
  heap w !! p = Some (Cell st []) → queue w = [] →
  st = Pending ∨ st = Settled (Fulfilled v) →
  next (request_action ∅ (VStr DATA_FETCH_START)) = Normal r0 →
  let w1 := (actionFlow next (fetchData (VPromise p)) w).2 in
  reduce_actions dataReducer (VObj m)
    (drop (List.length (dispatched w)) (dispatched w1))
  = Normal (VObj (<["fetchDataProgress" := progress true VNull]>
                    (delete "__proto__" m)))
  ∧ ∃ w',
      run_next_job next (fulfill_promise p v w1) = Some w'
      ∧ reduce_actions dataReducer (VObj m)
          (drop (List.length (dispatched w)) (dispatched w'))
        = Normal (VObj (<["data" := v]>
                          (<["fetchDataProgress" := progress false VNull]>
                             (delete "__proto__" m)))).
Proof.
  intros Hs1 Hs2 Hc Hq Hst Hn w1.
  destruct (bare_flow_completes DATA_FETCH_START DATA_FETCH_SUCCESS
              DATA_FETCH_FAIL p st (Fulfilled v) r0 w Hc Hq Hst Hn)
    as (Hlog1 & w' & Hrun & Hlog').
  split.
  - unfold w1. unfold_creators. rewrite Hlog1, drop_dispatched.
    cbn [reduce_actions]. by rewrite dataReducer_start.
  - exists w'. split; [exact Hrun|].
    rewrite Hlog', drop_dispatched. cbn [reduce_actions outcome_action].
    rewrite dataReducer_start, dataReducer_success by done.
    rewrite assigned_copied_whole by discriminate.
    by rewrite insert_insert_eq.
Qed.

(** X16: the fetch of the README, start to failure.  Once the promise is
    rejected with [e] the data reducer ends with [loading = false] and
    [error = e], and with the [data] it had before: a failed fetch does not
    clear what an earlier one loaded.  The rest of the state is kept,
    except for an own [__proto__] entry, which [Object.assign] does not
    copy. *)
Theorem fetch_failure_reaches_state (m : gmap string val) (p : nat)
    (e : val) (st : pstate) (r0 : val) (w : world) :
  DATA_FETCH_FAIL ≠ DATA_FETCH_START →
  heap w !! p = Some (Cell st []) → queue w = [] →
  st = Pending ∨ st = Settled (Rejected e) →
  next (request_action ∅ (VStr DATA_FETCH_START)) = Normal r0 →
  let w1 := (actionFlow next (fetchData (VPromise p)) w).2 in
  ∃ w' m',
    run_next_job next (reject_promise p e w1) = Some w'
    ∧ reduce_actions dataReducer (VObj m)
        (drop (List.length (dispatched w)) (dispatched w'))
      = Normal (VObj m')
    ∧ m' = <["fetchDataProgress" := progress false e]> (delete "__proto__" m)
    ∧ m' !! "data" = m !! "data".
Proof.
  intros Hf Hc Hq Hst Hn w1.
  destruct (bare_flow_completes DATA_FETCH_START DATA_FETCH_SUCCESS
              DATA_FETCH_FAIL p st (Rejected e) r0 w Hc Hq Hst Hn)
    as (_ & w' & Hrun & Hlog').
  exists w', (<["fetchDataProgress" := progress false e]>
                (delete "__proto__" m)).
  split; [exact Hrun|]. split; [|split; [reflexivity|]].
  - rewrite Hlog', drop_dispatched. cbn [reduce_actions outcome_action].
    rewrite dataReducer_start, dataReducer_fail by done.
    rewrite assigned_copied_whole by discriminate.
    by rewrite insert_insert_eq.
  - by rewrite lookup_insert_ne, lookup_delete_ne by discriminate.
Qed.

(** ** The shared message reducer *)

Lemma sharedMessageReducer_object m props :
  sharedMessageReducer (VObj m) (VObj props) =
    if is_kind (get_prop (VObj props) "type") SHARED_MESSAGE_UPDATE then
      Normal (VObj (assign_props (get_prop (VObj props) "value")))
    else if is_kind (get_prop (VObj props) "type") SHARED_MESSAGE_CLOSE then
      Normal (VObj (<["isVisible" := VBool false]> (delete "__proto__" m)))
    else Normal (VObj m).
Proof. reflexivity. Qed.

Lemma sharedMessageReducer_close m props :
  SHARED_MESSAGE_CLOSE ≠ SHARED_MESSAGE_UPDATE →
  get_prop (VObj props) "type" = VStr SHARED_MESSAGE_CLOSE →
  sharedMessageReducer (VObj m) (VObj props)
  = Normal (VObj (<["isVisible" := VBool false]> (delete "__proto__" m))).
Proof.
  intros Hne Ht. rewrite sharedMessageReducer_object, Ht.
  by rewrite is_kind_other, is_kind_same.
Qed.

Lemma sharedMessageReducer_ignores m props KIND :
  KIND ≠ SHARED_MESSAGE_UPDATE → KIND ≠ SHARED_MESSAGE_CLOSE →
  get_prop (VObj props) "type" = VStr KIND →
  sharedMessageReducer (VObj m) (VObj props) = Normal (VObj m).
Proof.
  intros H1 H2 Ht. rewrite sharedMessageReducer_object, Ht.
  by rewrite !is_kind_other.
Qed.

(** X17: [update(value)] replaces the whole state by what
    [Object.assign({}, value)] builds: the result does not depend on the
    state before, so nothing of it survives, [isVisible] included.  For an
    object [value] that is its own entries without [__proto__]; a [close()]
    after it hides that message and keeps those entries. *)
Theorem update_replaces_state (state value : val) (m : gmap string val) :
  SHARED_MESSAGE_CLOSE ≠ SHARED_MESSAGE_UPDATE →
  sharedMessageReducer state (update value)
    = Normal (VObj (assign_props value))
  ∧ sharedMessageReducer state (update (VObj m))
    = Normal (VObj (delete "__proto__" m))
  ∧ reduce_actions sharedMessageReducer state [update (VObj m); close]
    = Normal (VObj (<["isVisible" := VBool false]> (delete "__proto__" m))).
Proof.
  intros Hne.
  assert (Hup : ∀ s v, sharedMessageReducer s (update v)
                       = Normal (VObj (assign_props v))).
  { intros s v. unfold_application. cbv zeta iota beta.
    change (get_prop _ "type") with (VStr SHARED_MESSAGE_UPDATE).
    rewrite is_kind_same.
    by change (get_prop _ "value") with v. }
  split; [apply Hup|]. split; [apply Hup|].
  cbn [reduce_actions]. rewrite Hup. cbn [assign_props].
  unfold_creators. rewrite sharedMessageReducer_close by done.
  by rewrite delete_delete_eq.
Qed.

(** X18: [close()] sets [isVisible] to [false] and keeps every other own
    entry of the state but [__proto__], which [Object.assign] does not
    copy; closing a closed message changes nothing. *)
Theorem close_hides_message (m : gmap string val) :
  SHARED_MESSAGE_CLOSE ≠ SHARED_MESSAGE_UPDATE →
  ∃ m',
    sharedMessageReducer (VObj m) close = Normal (VObj m')
    ∧ m' !! "isVisible" = Some (VBool false)
    ∧ (∀ k, k ≠ "isVisible" → k ≠ "__proto__" → m' !! k = m !! k)
    ∧ m' !! "__proto__" = None
    ∧ sharedMessageReducer (VObj m') close = Normal (VObj m').
Proof.
  intros Hne. exists (<["isVisible" := VBool false]> (delete "__proto__" m)).
  unfold_creators. rewrite !sharedMessageReducer_close by done.
  repeat split.
  - apply lookup_insert_eq.
  - intros k Hk Hk'. by rewrite lookup_insert_ne, lookup_delete_ne by congruence.
  - rewrite lookup_insert_ne by discriminate. apply lookup_delete_eq.
  - rewrite assigned_copied_whole by discriminate.
    by rewrite insert_insert_eq.
Qed.

(** X19: the delayed close of the README.  Fed with the actions the
    middleware dispatches for [delayedClose(delay)], the message reducer
    leaves the state alone while the timer runs (the start kind is not
    handled), hides the message once the promise is fulfilled (keeping the
    other own entries but [__proto__], which [Object.assign] does not
    copy), and leaves the state alone again if the promise is rejected
    (the failure kind is not handled either).  The kinds are assumed
    distinct where the reducer tells them apart. *)
Theorem delayed_close_reaches_state (m : gmap string val) (p : nat)
    (o : outcome) (st : pstate) (r0 : val) (w : world) :
  SHARED_MESSAGE_CLOSE ≠ SHARED_MESSAGE_UPDATE →
  SHARED_MESSAGE_CLOSE_START ≠ SHARED_MESSAGE_UPDATE →
  SHARED_MESSAGE_CLOSE_START ≠ SHARED_MESSAGE_CLOSE →
  SHARED_MESSAGE_CLOSE_FAIL ≠ SHARED_MESSAGE_UPDATE →
  SHARED_MESSAGE_CLOSE_FAIL ≠ SHARED_MESSAGE_CLOSE →
  heap w !! p = Some (Cell st []) → queue w = [] →
  st = Pending ∨ st = Settled o →
  next (request_action ∅ (VStr SHARED_MESSAGE_CLOSE_START)) = Normal r0 →
  let w1 := (actionFlow next (delayedClose (VPromise p)) w).2 in
  reduce_actions sharedMessageReducer (VObj m)
    (drop (List.length (dispatched w)) (dispatched w1))
  = Normal (VObj m)
  ∧ ∃ w',
      run_next_job next (settle_promise p o w1) = Some w'
      ∧ reduce_actions sharedMessageReducer (VObj m)
          (drop (List.length (dispatched w)) (dispatched w'))
        = Normal (VObj match o with
                       | Fulfilled _ =>
                           <["isVisible" := VBool false]>
                             (delete "__proto__" m)
                       | Rejected _ => m
                       end).
Proof.
  intros Hcu Hsu Hsc Hfu Hfc Hc Hq Hst Hn w1.
  destruct (bare_flow_completes SHARED_MESSAGE_CLOSE_START SHARED_MESSAGE_CLOSE
              SHARED_MESSAGE_CLOSE_FAIL p st o r0 w Hc Hq Hst Hn)
    as (Hlog1 & w' & Hrun & Hlog').
  assert (Hstart : ∀ rest,
    sharedMessageReducer (VObj m)
      (request_action rest (VStr SHARED_MESSAGE_CLOSE_START))
    = Normal (VObj m)).
  { intros rest.
    apply (sharedMessageReducer_ignores _ _ SHARED_MESSAGE_CLOSE_START);
      [done | done | apply request_action_type]. }
  split.
  - unfold w1. unfold_creators. rewrite Hlog1, drop_dispatched.
    cbn [reduce_actions]. by rewrite Hstart.
  - exists w'. split; [exact Hrun|].
    rewrite Hlog', drop_dispatched. cbn [reduce_actions]. rewrite Hstart.
    destruct o as [v|e]; cbn [outcome_action].
    + unfold success_action. rewrite sharedMessageReducer_close; [done..|].
      apply (success_action_type ∅ _ v).
    + unfold failure_action.
      rewrite (sharedMessageReducer_ignores _ _ SHARED_MESSAGE_CLOSE_FAIL);
        [done..|].
      apply (failure_action_type ∅ _ e).
Qed.

End ApplicationProperties.

(** * Worked examples, continued *)

(** [null] as an action. *)
Lemma null_action_example :
  actionFlow store_next VNull (one_promise Pending)
  = (Throw VTypeError, one_promise Pending).
Proof.
  apply (nullish_action_throws store_next VNull (one_promise Pending)).
  right. reflexivity.
Defined.

(** A string as an action. *)
Lemma string_action_example :
  actionFlow store_next (VStr "PING") (one_promise Pending)
  = (Normal (VStr "PING"), World [VStr "PING"] [Cell Pending []] []).
Proof.
  apply (non_object_action_forwarded store_next (VStr "PING")
           (one_promise Pending)); discriminate.
Defined.

(** [{ types: 3, promise }]. *)
Lemma number_types_example :
  actionFlow store_next
    (VObj (<["types" := VNum 3]> {["promise" := VPromise 0]}))
    (one_promise Pending)
  = (Throw VTypeError, one_promise Pending).
Proof.
  apply (non_iterable_types_throw store_next
           (<["types" := VNum 3]> {["promise" := VPromise 0]}) (VPromise 0)
           (one_promise Pending));
    [reflexivity | reflexivity
    | intros l; vm_compute; discriminate
    | intros s; vm_compute; discriminate].
Defined.

(** A fourth kind changes nothing. *)
Lemma four_types_example :
  actionFlow store_next
    (VObj (<["types" := VArr [VStr "FETCH_START"; VStr "FETCH_OK";
                              VStr "FETCH_ERR"; VStr "FETCH_MORE"]]>
             {["promise" := VPromise 0]}))
    (one_promise Pending)
  = actionFlow store_next fetch_action (one_promise Pending).
Proof.
  apply (types_beyond_third_ignored store_next {["promise" := VPromise 0]}
           (VPromise 0) (VStr "FETCH_START") (VStr "FETCH_OK")
           (VStr "FETCH_ERR") [VStr "FETCH_MORE"] (one_promise Pending));
    reflexivity.
Defined.

(** [{ types: 'abc', promise }]: the request action is tagged ['a']. *)
Lemma string_types_example :
  dispatched
    (actionFlow store_next
       (VObj (<["types" := VStr "abc"]> {["promise" := VPromise 0]}))
       (one_promise Pending)).2
  = [VObj {["type" := VStr "a"]}].
Proof.
  etrans;
    [apply (f_equal (λ r : completion val * world, dispatched r.2)),
       (string_types_split_into_characters store_next
          {["promise" := VPromise 0]} (VPromise 0) "abc"
          (one_promise Pending)); reflexivity|].
  vm_compute. reflexivity.
Defined.

(** [{ types: [...], promise: true }]. *)
Lemma true_promise_example :
  actionFlow store_next
    (VObj (<["types" := fetch_types]> {["promise" := VBool true]}))
    (World [] [] [])
  = (Throw VTypeError, World [VObj {["type" := VStr "FETCH_START"]}] [] []).
Proof.
  etrans;
    [apply (truthy_non_promise_raises store_next
              (<["types" := fetch_types]> {["promise" := VBool true]})
              (VBool true)
              [VStr "FETCH_START"; VStr "FETCH_OK"; VStr "FETCH_ERR"]
              (VObj {["type" := VStr "FETCH_START"]}) (World [] [] []));
     [reflexivity | reflexivity | discriminate | reflexivity | reflexivity]|].
  vm_compute. reflexivity.
Defined.

(** With a pipeline that refuses the request action, settling the promise
    and running microtasks brings nothing more into the log. *)
Lemma refused_request_example :
  (actionFlow failing_next fetch_action (one_promise Pending)).1
  = Throw (VStr "down")
  ∧ dispatched
      (run_jobs failing_next 2
         (settle_promise 0 (Fulfilled (VNum 42))
            (actionFlow failing_next fetch_action (one_promise Pending)).2))
    = [VObj {["type" := VStr "FETCH_START"]}].
Proof.
  edestruct (refused_request_ends_flow failing_next
               (<["types" := fetch_types]> {["promise" := VPromise 0]})
               (VPromise 0)
               [VStr "FETCH_START"; VStr "FETCH_OK"; VStr "FETCH_ERR"]
               (VStr "down") (one_promise Pending)
               (run_jobs failing_next 2
                  (settle_promise 0 (Fulfilled (VNum 42))
                     (actionFlow failing_next fetch_action
                        (one_promise Pending)).2)))
    as [Hret Hlog];
    [reflexivity | reflexivity | reflexivity | reflexivity
    | by apply (bool_decide_unpack _) | |].
  - eapply rtc_l; [apply step_settle | apply run_jobs_steps].
  - split; [exact Hret|]. etrans; [exact Hlog|]. vm_compute. reflexivity.
Defined.

(** With a pipeline that raises on the success action, the returned
    promise (cell [1]) is rejected with the pipeline's exception. *)
Lemma pipeline_exception_example :
  ∃ w',
    run_next_job start_only_next
      (settle_promise 0 (Fulfilled (VNum 42))
         (actionFlow start_only_next fetch_action (one_promise Pending)).2)
      = Some w'
    ∧ dispatched w' =
        [VObj {["type" := VStr "FETCH_START"]};
         VObj (<["type" := VStr "FETCH_OK"]> {["value" := VNum 42]})]
    ∧ state_of 1 w' = Settled (Rejected (VStr "down")).
Proof.
  edestruct (pipeline_exception_rejects_returned_promise start_only_next
               (<["types" := fetch_types]> {["promise" := VPromise 0]}) 0
               [VStr "FETCH_START"; VStr "FETCH_OK"; VStr "FETCH_ERR"]
               Pending (Fulfilled (VNum 42))
               (VObj {["type" := VStr "FETCH_START"]}) (VStr "down")
               (one_promise Pending))
    as (w' & Hrun & Hlog & Hstate);
    [reflexivity | reflexivity | reflexivity | reflexivity
    | left; reflexivity | reflexivity | reflexivity |].
  exists w'. repeat split; [exact Hrun | | exact Hstate].
  etrans; [exact Hlog|]. vm_compute. reflexivity.
Defined.

(** [Promise.resolve(42)] goes in, a pending promise comes out. *)
Lemma fresh_promise_example :
  (actionFlow store_next fetch_action
     (one_promise (Settled (Fulfilled (VNum 42))))).1 = Normal (VPromise 1)
  ∧ state_of 1
      (actionFlow store_next fetch_action
         (one_promise (Settled (Fulfilled (VNum 42))))).2 = Pending.
Proof.
  edestruct (returned_promise_fresh_and_pending store_next
               (<["types" := fetch_types]> {["promise" := VPromise 0]}) 0
               [VStr "FETCH_START"; VStr "FETCH_OK"; VStr "FETCH_ERR"]
               (VObj {["type" := VStr "FETCH_START"]})
               (one_promise (Settled (Fulfilled (VNum 42)))))
    as (Hret & _ & _ & Hcell & _);
    [reflexivity | reflexivity | by eexists | reflexivity |].
  split; [exact Hret|].
  change (default Pending
            (c_state <$>
               heap (actionFlow store_next fetch_action
                       (one_promise (Settled (Fulfilled (VNum 42))))).2
               !! List.length
                    (heap (one_promise (Settled (Fulfilled (VNum 42))))))
          = Pending).
  etrans; [apply (f_equal (λ c, default Pending (c_state <$> c))), Hcell|].
  reflexivity.
Defined.

(** [next] answers the success action with promise [1], which is rejected
    with ['late']: the returned promise (cell [2]) ends rejected with
    ['late']. *)
Lemma chained_promise_example :
  state_of 2
    (run_jobs chaining_next 1
       (settle_promise 1 (Rejected (VStr "late"))
          (run_jobs chaining_next 2
             (fulfill_promise 0 (VNum 42)
                (actionFlow chaining_next fetch_action
                   (two_promises Pending Pending)).2))))
  = Settled (Rejected (VStr "late")).
Proof.
  apply (returned_promise_follows_next_promise chaining_next
           (<["types" := fetch_types]> {["promise" := VPromise 0]}) 0 1
           [VStr "FETCH_START"; VStr "FETCH_OK"; VStr "FETCH_ERR"]
           Pending Pending (VNum 42)
           (VObj {["type" := VStr "FETCH_START"]})
           (Rejected (VStr "late")) (two_promises Pending Pending));
    [reflexivity | reflexivity | reflexivity | reflexivity
    | left; reflexivity | discriminate | reflexivity | left; reflexivity
    | intros x q' Hx; discriminate Hx | reflexivity | reflexivity].
Defined.

(** Fetch first, save second; the save settles first and its action is
    dispatched first. *)
Lemma two_flows_example :
  dispatched
    (run_jobs store_next 1
       (settle_promise 0 (Fulfilled (VNum 42))
          (run_jobs store_next 1
             (settle_promise 1 (Rejected (VStr "boom"))
                (actionFlow store_next save_action
                   (actionFlow store_next fetch_action
                      (two_promises Pending Pending)).2).2)))) =
  [VObj {["type" := VStr "FETCH_START"]};
   VObj {["type" := VStr "SAVE_START"]};
   VObj (<["type" := VStr "SAVE_ERR"]> {["error" := VStr "boom"]});
   VObj (<["type" := VStr "FETCH_OK"]> {["value" := VNum 42]})].
Proof.
  etrans;
    [apply (outcomes_follow_settlement_order store_next
              (<["types" := fetch_types]> {["promise" := VPromise 0]})
              (<["types" := VArr [VStr "SAVE_START"; VStr "SAVE_OK";
                                  VStr "SAVE_ERR"]]>
                 {["promise" := VPromise 1]})
              0 1
              [VStr "FETCH_START"; VStr "FETCH_OK"; VStr "FETCH_ERR"]
              [VStr "SAVE_START"; VStr "SAVE_OK"; VStr "SAVE_ERR"]
              (Fulfilled (VNum 42)) (Rejected (VStr "boom"))
              (VObj {["type" := VStr "FETCH_START"]})
              (VObj {["type" := VStr "SAVE_START"]})
              (two_promises Pending Pending));
     [reflexivity | reflexivity | reflexivity | reflexivity | discriminate
     | reflexivity | reflexivity | reflexivity | reflexivity | reflexivity
     | intros q; vm_compute; discriminate]|].
  vm_compute. reflexivity.
Defined.

(** A failed fetch on a state with a [user] entry keeps that entry. *)
Lemma failed_fetch_keeps_user_example :
  ∃ m',
    dataReducer "DATA_FETCH_START" "DATA_FETCH_SUCCESS" "DATA_FETCH_FAIL"
      (VObj (<["user" := VStr "ann"]> {["data" := VStr "old"]}))
      (VObj (<["type" := VStr "DATA_FETCH_FAIL"]> {["error" := VStr "boom"]}))
    = Normal (VObj m')
    ∧ m' !! "user" = Some (VStr "ann").
Proof.
  edestruct (dataReducer_keeps_other_state
               "DATA_FETCH_START" "DATA_FETCH_SUCCESS" "DATA_FETCH_FAIL"
               (<["user" := VStr "ann"]> {["data" := VStr "old"]})
               (VObj (<["type" := VStr "DATA_FETCH_FAIL"]>
                        {["error" := VStr "boom"]})))
    as (m' & Hred & Hkeep & _); [discriminate | discriminate |].
  exists m'. split; [exact Hred|].
  etrans; [apply Hkeep; discriminate|]. reflexivity.
Defined.

(** The first start action on the initial state. *)
Lemma first_start_drops_errors_example :
  ∃ m' loading error,
    dataReducer "DATA_FETCH_START" "DATA_FETCH_SUCCESS" "DATA_FETCH_FAIL"
      VUndefined (VObj {["type" := VStr "DATA_FETCH_START"]})
    = Normal (VObj m')
    ∧ m' !! "fetchDataProgress" = Some (progress loading error)
    ∧ own_props (progress loading error) !! "errors" = None.
Proof.
  edestruct (handled_action_drops_errors_entry
               "DATA_FETCH_START" "DATA_FETCH_SUCCESS" "DATA_FETCH_FAIL"
               VUndefined (VObj {["type" := VStr "DATA_FETCH_START"]}))
    as (_ & _ & m' & loading & error & Hred & Hprog & Hnone & _);
    [discriminate | discriminate | reflexivity |].
  by exists m', loading, error.
Defined.

(** [fetchData()] on a pending promise that is then fulfilled with
    ['rows']. *)
Lemma fetch_data_success_example :
  ∃ w',
    run_next_job store_next
      (fulfill_promise 0 (VStr "rows")
         (actionFlow store_next
            (fetchData "DATA_FETCH_START" "DATA_FETCH_SUCCESS"
               "DATA_FETCH_FAIL" (VPromise 0))
            (one_promise Pending)).2) = Some w'
    ∧ reduce_actions
        (dataReducer "DATA_FETCH_START" "DATA_FETCH_SUCCESS" "DATA_FETCH_FAIL")
        (VObj {["data" := VStr EmptyString]}) (dispatched w')
      = Normal (VObj (<["data" := VStr "rows"]>
                        {["fetchDataProgress" := progress false VNull]})).
Proof.
  edestruct (fetch_success_reaches_state store_next
               "DATA_FETCH_START" "DATA_FETCH_SUCCESS" "DATA_FETCH_FAIL"
               {["data" := VStr EmptyString]} 0 (VStr "rows") Pending
               (VObj {["type" := VStr "DATA_FETCH_START"]})
               (one_promise Pending))
    as (_ & w' & Hrun & Hred);
    [discriminate | discriminate | reflexivity | reflexivity
    | left; reflexivity | reflexivity |].
  exists w'. split; [exact Hrun|].
  etrans; [exact Hred|]. vm_compute. reflexivity.
Defined.

(** [fetchData()] on a pending promise that is then rejected with
    ['boom'], on a state that holds earlier data. *)
Lemma fetch_data_failure_example :
  ∃ w' m',
    run_next_job store_next
      (reject_promise 0 (VStr "boom")
         (actionFlow store_next
            (fetchData "DATA_FETCH_START" "DATA_FETCH_SUCCESS"
               "DATA_FETCH_FAIL" (VPromise 0))
            (one_promise Pending)).2) = Some w'
    ∧ reduce_actions
        (dataReducer "DATA_FETCH_START" "DATA_FETCH_SUCCESS" "DATA_FETCH_FAIL")
        (VObj {["data" := VStr "old"]}) (dispatched w')
      = Normal (VObj m')
    ∧ m' !! "data" = Some (VStr "old").
Proof.
  edestruct (fetch_failure_reaches_state store_next
               "DATA_FETCH_START" "DATA_FETCH_SUCCESS" "DATA_FETCH_FAIL"
               {["data" := VStr "old"]} 0 (VStr "boom") Pending
               (VObj {["type" := VStr "DATA_FETCH_START"]})
               (one_promise Pending))
    as (w' & m' & Hrun & Hred & _ & Hdata);
    [discriminate | reflexivity | reflexivity | left; reflexivity
    | reflexivity |].
  exists w', m'. split; [exact Hrun|]. split; [exact Hred|].
  etrans; [exact Hdata|]. reflexivity.
Defined.

(** [update({ text: 'hi' })] on the initial state: [isVisible] is gone. *)
Lemma update_message_example :
  sharedMessageReducer "SHARED_MESSAGE_UPDATE" "SHARED_MESSAGE_CLOSE"
    message_initialState
    (update "SHARED_MESSAGE_UPDATE" (VObj {["text" := VStr "hi"]}))
  = Normal (VObj {["text" := VStr "hi"]}).
Proof.
  etrans;
    [eapply proj1, (update_replaces_state
                      "SHARED_MESSAGE_UPDATE" "SHARED_MESSAGE_CLOSE"
                      message_initialState (VObj {["text" := VStr "hi"]})
                      {["text" := VStr "hi"]}); discriminate|].
  reflexivity.
Defined.

(** [close()] on a visible message that also has an own [__proto__] entry:
    the text is kept, the [__proto__] entry is not. *)
Lemma close_message_example :
  ∃ m',
    sharedMessageReducer "SHARED_MESSAGE_UPDATE" "SHARED_MESSAGE_CLOSE"
      (VObj (<["__proto__" := VStr "x"]>
               (<["isVisible" := VBool true]> {["text" := VStr "hi"]})))
      (close "SHARED_MESSAGE_CLOSE")
    = Normal (VObj m')
    ∧ m' !! "isVisible" = Some (VBool false)
    ∧ m' !! "text" = Some (VStr "hi")
    ∧ m' !! "__proto__" = None.
Proof.
  edestruct (close_hides_message
               "SHARED_MESSAGE_UPDATE" "SHARED_MESSAGE_CLOSE"
               (<["__proto__" := VStr "x"]>
                  (<["isVisible" := VBool true]> {["text" := VStr "hi"]})))
    as (m' & Hred & Hvis & Hkeep & Hproto & _); [discriminate|].
  exists m'. split; [exact Hred|]. split; [exact Hvis|].
  split; [|exact Hproto].
  etrans; [apply Hkeep; discriminate|]. reflexivity.
Defined.

(** [delayedClose(delay)] on a visible message, the timer firing. *)
Lemma delayed_close_example :
  ∃ w',
    run_next_job store_next
      (settle_promise 0 (Fulfilled VUndefined)
         (actionFlow store_next
            (delayedClose "SHARED_MESSAGE_CLOSE" "SHARED_MESSAGE_CLOSE_START"
               "SHARED_MESSAGE_CLOSE_FAIL" (VPromise 0))
            (one_promise Pending)).2) = Some w'
    ∧ reduce_actions
        (sharedMessageReducer "SHARED_MESSAGE_UPDATE" "SHARED_MESSAGE_CLOSE")
        (VObj (<["isVisible" := VBool true]> {["text" := VStr "hi"]}))
        (dispatched w')
      = Normal (VObj (<["isVisible" := VBool false]> {["text" := VStr "hi"]})).
Proof.
  edestruct (delayed_close_reaches_state store_next
               "SHARED_MESSAGE_UPDATE" "SHARED_MESSAGE_CLOSE"
               "SHARED_MESSAGE_CLOSE_START" "SHARED_MESSAGE_CLOSE_FAIL"
               (<["isVisible" := VBool true]> {["text" := VStr "hi"]}) 0
               (Fulfilled VUndefined) Pending
               (VObj {["type" := VStr "SHARED_MESSAGE_CLOSE_START"]})
               (one_promise Pending))
    as (_ & w' & Hrun & Hred);
    [discriminate | discriminate | discriminate | discriminate | discriminate
    | reflexivity | reflexivity | left; reflexivity | reflexivity |].
  exists w'. split; [exact Hrun|].
  etrans; [exact Hred|]. vm_compute. reflexivity.
Defined.
